(** * chainerrl.experiments.train_agent_batch: the batch training loop

    A shallow embedding of [train_agent_batch] from
    [chainerrl/experiments/train_agent_batch.py], together with the
    properties of its control flow: per-slot episode bookkeeping, the
    bounded window of recent returns, the step counter and the step
    hooks, and the checkpoint written on each exit path.

    The agent, the environment, the evaluator, the logger, the step hooks
    and [save_agent] are collaborators: they are functions on an abstract
    world [W] that either return or raise.  Every call the loop makes is
    recorded in a trace of events, so that "is invoked" is a statement
    about the trace. *)

From Stdlib Require Import ZArith Lia Sorted.
From stdpp Require Import base tactics list vector finite strings.

Local Open Scope Z_scope.

(** ** 32-bit signed integers ([dtype='i']) *)

Definition INT32_MAX : Z := 2 ^ 31 - 1.
Definition INT32_MIN : Z := - 2 ^ 31.

Definition int32_range (z : Z) : Prop := INT32_MIN <= z <= INT32_MAX.

(** Two's complement wrap-around of an integer into the int32 range. *)
Definition wrap_int32 (z : Z) : Z := (z + 2 ^ 31) mod 2 ^ 32 - 2 ^ 31.

(** ** Python exceptions *)

(** The class of an exception object, as far as the [except] clause of
    the loop tells them apart: instances of [Exception],
    [KeyboardInterrupt], and the other direct [BaseException]s
    ([SystemExit], [GeneratorExit]). *)
Inductive exn_class : Type :=
| ExceptionCls
| KeyboardInterruptCls
| BaseExceptionCls.

Record exn : Type := Exn { exn_cls : exn_class; exn_msg : string }.

(** [except (Exception, KeyboardInterrupt)] *)
Definition caught (e : exn) : bool :=
  match exn_cls e with
  | ExceptionCls | KeyboardInterruptCls => true
  | BaseExceptionCls => false
  end.

(** Raised by [t % log_interval] when [log_interval] is 0. *)
Definition ZeroDivisionError : exn :=
  Exn ExceptionCls "integer division or modulo by zero".

Inductive res (A : Type) : Type :=
| Ok (a : A)
| Raise (e : exn).
Arguments Ok {A} a.
Arguments Raise {A} e.

(** ** [collections.deque(maxlen=...)] *)

Section deque.
Context {A : Type}.

(** [d.append(x)]: the element is added on the right; when the length
    then exceeds [maxlen], one element is removed on the left. *)
Definition deque_append (maxlen : nat) (d : list A) (x : A) : list A :=
  let d' := d ++ [x] in
  if (maxlen <? length d')%nat then tail d' else d'.

(** [d.extend(xs)]: appends the elements of [xs] one by one. *)
Definition deque_extend (maxlen : nat) (d : list A) (xs : list A) : list A :=
  fold_left (deque_append maxlen) xs d.

(** [a[mask]] for a boolean mask: the entries at the true positions, in
    order. *)
Fixpoint mask_select (xs : list A) (mask : list bool) : list A :=
  match xs, mask with
  | x :: xs', b :: mask' =>
      if b then x :: mask_select xs' mask' else mask_select xs' mask'
  | _, _ => []
  end.
End deque.

(** ** Per-slot arrays *)

Section arrays.
Context {n : nat}.

(** [a[mask] = v] *)
Definition mask_assign {A} (a : vec A n) (mask : vec bool n) (v : A) : vec A n :=
  vzip_with (fun x (b : bool) => if b then v else x) a mask.

(** [a += 1] on an int32 array *)
Definition int32_incr (a : vec Z n) : vec Z n :=
  vmap (fun x => wrap_int32 (x + 1)) a.

(** [a += mask] on an int32 array, the mask cast to 0/1 *)
Definition int32_add_mask (a : vec Z n) (mask : vec bool n) : vec Z n :=
  vzip_with (fun x (b : bool) => wrap_int32 (x + Z.b2z b)) a mask.

(** [a == v], elementwise *)
Definition array_eq (a : vec Z n) (v : Z) : vec bool n :=
  vmap (fun x => Z.eqb x v) a.

Definition logical_or (a b : vec bool n) : vec bool n := vzip_with orb a b.
Definition logical_not (a : vec bool n) : vec bool n := vmap negb a.

(** [np.sum(a)]: the accumulator is wider than int32, so the sum of the
    entries is exact. *)
Definition np_sum (a : vec Z n) : Z := foldr Z.add 0 (vec_to_list a).
End arrays.

(** ** The environment's masked reset *)

(** Modelled from the spec: the masked reset of the vectorized
    environment, [env.reset(mask)], whose code is not among the sources.
    The spec describes the mask as a keep mask: the loop passes [not end]
    "so only ended slots actually restart", and "non-ended slots continue
    uninterrupted with their existing internal environment state".  A
    slot whose mask entry is true keeps its state; a slot whose entry is
    false is restarted. *)
Definition masked_reset {S : Type} {n : nat} (restart : S -> S)
    (mask : vec bool n) (slots : vec S n) : vec S n :=
  vzip_with (fun (keep : bool) (slot : S) => if keep then slot else restart slot)
            mask slots.

(** ** The collaborators and the state of a run *)

Section train.
(** [W] is the state of everything outside the loop: the agent, the
    environment, the evaluator, the logger and whatever the hooks
    touch.  [R] is the type of rewards and returns, [N] is
    [env.num_envs]. *)
Context {W Obss Acts R Score Stats : Type}.
Context {N : nat}.

(** Addition and zero of returns ([float64]); the mean of a window of
    returns; [>=] on scores. *)
Variable radd : R -> R -> R.
Variable rzero : R.
Variable np_mean : list R -> R.
Variable score_ge : Score -> Score -> bool.

(** A call to a collaborator changes the world and returns or raises. *)
Definition ext (A : Type) : Type := W -> res A * W.

Record Agent : Type := {
  (** [hasattr(agent, 't')] and the assignment [agent.t = v] *)
  has_t : bool;
  set_t : Z -> W -> W;
  batch_act_and_train : Obss -> ext Acts;
  batch_observe_and_train :
    Obss -> vec R N -> vec bool N -> vec bool N -> ext unit;
  get_statistics : ext Stats
}.

Record Env : Type := {
  (** [env.reset(mask)]; [None] is the call without argument *)
  reset : option (vec bool N) -> ext Obss;
  (** [env.step(actions)]: observations, rewards and done flags (the
      infos are not used by the loop) *)
  step : Acts -> ext (Obss * vec R N * vec bool N);
  close : ext unit
}.

Record Evaluator : Type := {
  evaluate_if_necessary : Z -> Z -> ext bool;
  max_score : W -> Score;
  (** [evaluator.env.close()] *)
  evaluator_env_close : ext unit
}.

Record Logger : Type := {
  (** [logger.info] of the progress line: outdir, step, episode count,
      last return and average return ([None] stands for [nan]) *)
  info_progress : string -> Z -> Z -> option R -> option R -> ext unit;
  (** [logger.info] of the statistics line *)
  info_statistics : Stats -> ext unit
}.

(** A step hook is called as [hook(env, agent, t)]. *)
Definition Hook : Type := Z -> ext unit.

(** The calls made by the loop, with the arguments that matter. *)
Inductive event : Type :=
| EvResetAll
| EvAct
| EvStep
| EvObserve (rs : vec R N) (dones resets : vec bool N)
| EvReset (mask : vec bool N)
| EvHook (k : nat) (t : Z)
| EvLogProgress (t episodes : Z)
| EvGetStatistics
| EvLogStatistics
| EvEvaluate (t episodes : Z)
| EvSave (t : Z) (suffix : string)
| EvEnvClose
| EvEvaluatorEnvClose.

(** The world, the trace of calls so far, and the local variables of
    [train_agent_batch]. *)
Record state : Type := State {
  world : W;
  trace : list event;
  t : Z;
  obss : Obss;
  episode_r : vec R N;
  episode_idx : vec Z N;
  episode_len : vec Z N;
  recent_returns : list R
}.

Definition set_world (w : W) (s : state) : state :=
  State w (trace s) (t s) (obss s) (episode_r s) (episode_idx s)
        (episode_len s) (recent_returns s).
Definition log_event (ev : event) (s : state) : state :=
  State (world s) (trace s ++ [ev]) (t s) (obss s) (episode_r s)
        (episode_idx s) (episode_len s) (recent_returns s).
Definition set_step (v : Z) (s : state) : state :=
  State (world s) (trace s) v (obss s) (episode_r s) (episode_idx s)
        (episode_len s) (recent_returns s).
Definition set_obss (o : Obss) (s : state) : state :=
  State (world s) (trace s) (t s) o (episode_r s) (episode_idx s)
        (episode_len s) (recent_returns s).
Definition set_episode_r (a : vec R N) (s : state) : state :=
  State (world s) (trace s) (t s) (obss s) a (episode_idx s)
        (episode_len s) (recent_returns s).
Definition set_episode_idx (a : vec Z N) (s : state) : state :=
  State (world s) (trace s) (t s) (obss s) (episode_r s) a
        (episode_len s) (recent_returns s).
Definition set_episode_len (a : vec Z N) (s : state) : state :=
  State (world s) (trace s) (t s) (obss s) (episode_r s) (episode_idx s)
        a (recent_returns s).
Definition set_recent_returns (d : list R) (s : state) : state :=
  State (world s) (trace s) (t s) (obss s) (episode_r s) (episode_idx s)
        (episode_len s) d.

(** ** A state monad with exceptions

    The state survives a raise: the handler of [train_agent_batch]
    reads [t] as it was when the exception left the loop. *)
Definition M (A : Type) : Type := state -> res A * state.

Definition ret {A} (a : A) : M A := fun s => (Ok a, s).
Definition raise {A} (e : exn) : M A := fun s => (Raise e, s).
Definition bind {A B} (m : M A) (f : A -> M B) : M B :=
  fun s => match m s with
           | (Ok a, s') => f a s'
           | (Raise e, s') => (Raise e, s')
           end.
Definition get : M state := fun s => (Ok s, s).
Definition modify (f : state -> state) : M unit := fun s => (Ok tt, f s).

(** A call to a collaborator: recorded in the trace, then run on the
    world. *)
Definition call {A} (ev : event) (op : ext A) : M A :=
  fun s => let '(r, w) := op (world s) in (r, set_world w (log_event ev s)).

Notation "x <- m ;; k" := (bind m (fun x => k))
  (at level 100, m at next level, right associativity).
Notation "m ;; k" := (bind m (fun _ => k))
  (at level 100, right associativity).

(** ** The parameters of [train_agent_batch] *)

Variable agent : Agent.
Variable env : Env.
Variable steps : Z.
Variable outdir : string.
Variable log_interval : option Z.
Variable max_episode_len : option Z.
Variable step_offset : Z.
Variable evaluator : option Evaluator.
Variable successful_score : option Score.
Variable step_hooks : list Hook.
Variable return_window_size : nat.
Variable logger : Logger.
(** [save_agent(agent, t, outdir, logger, suffix)] *)
Variable save_agent : Z -> string -> string -> ext unit.

(** ** The episode bookkeeping of one iteration (lines 66 to 90) *)

(** [episode_r += rs] *)
Definition accumulate (episode_r : vec R N) (rs : vec R N) : vec R N :=
  vzip_with radd episode_r rs.

(** The truncation mask [resets]. *)
Definition truncation_mask (episode_len : vec Z N) : vec bool N :=
  match max_episode_len with
  | None => vreplicate N false
  | Some m => array_eq episode_len m
  end.

(** ** The step hooks (lines 93 to 96) *)

(** [for hook in step_hooks: hook(env, agent, t)]; [k] is the position
    of the next hook in the list. *)
Fixpoint run_hooks (k : nat) (hooks : list Hook) : M unit :=
  match hooks with
  | [] => ret tt
  | hook :: hooks' =>
      s <- get ;;
      call (EvHook k (t s)) (hook (t s)) ;;
      run_hooks (S k) hooks'
  end.

(** [for _ in range(n): t += 1; <hooks>] *)
Fixpoint advance (n : nat) : M unit :=
  match n with
  | O => ret tt
  | S n' =>
      modify (fun s => set_step (t s + 1) s) ;;
      run_hooks 0 step_hooks ;;
      advance n'
  end.

(** ** Logging (lines 98 to 109) *)

Definition log_progress : M unit :=
  match log_interval with
  | None => ret tt
  | Some li =>
      s <- get ;;
      if t s <? li then ret tt
      else if li =? 0 then raise ZeroDivisionError
      else if t s mod li <? Z.of_nat N then
        let d := recent_returns s in
        let last_R := last d in
        let average_R :=
          match d with [] => None | _ => Some (np_mean d) end in
        call (EvLogProgress (t s) (np_sum (episode_idx s)))
             (info_progress logger outdir (t s) (np_sum (episode_idx s))
                            last_R average_R) ;;
        stats <- call EvGetStatistics (get_statistics agent) ;;
        call EvLogStatistics (info_statistics logger stats)
      else ret tt
  end.

(** ** Evaluation and the success test (lines 110 to 115); the result
    is [true] when the loop is left by [break]. *)
Definition evaluate : M bool :=
  match evaluator with
  | None => ret false
  | Some ev =>
      s <- get ;;
      ran <- call (EvEvaluate (t s) (np_sum (episode_idx s)))
                  (evaluate_if_necessary ev (t s) (np_sum (episode_idx s))) ;;
      if ran : bool then
        s' <- get ;;
        match successful_score with
        | Some score => ret (score_ge (max_score ev (world s')) score)
        | None => ret false
        end
      else ret false
  end.

(** ** One iteration of the [while] loop (lines 62 to 115) *)

(** Lines 62 to 91: the agent acts, the environment steps, the
    bookkeeping is updated, the agent observes, the ended slots are
    reset. *)
Definition transition : M unit :=
  s <- get ;;
  actions <- call EvAct (batch_act_and_train agent (obss s)) ;;
  r <- call EvStep (step env actions) ;;
  let '(obss', rs, dones) := r in
  modify (set_obss obss') ;;
  modify (fun s => set_episode_r (accumulate (episode_r s) rs) s) ;;
  modify (fun s => set_episode_len (int32_incr (episode_len s)) s) ;;
  s <- get ;;
  let resets := truncation_mask (episode_len s) in
  call (EvObserve rs dones resets)
       (batch_observe_and_train agent obss' rs dones resets) ;;
  let end_ := logical_or resets dones in
  let not_end := logical_not end_ in
  modify (fun s => set_episode_idx (int32_add_mask (episode_idx s) end_) s) ;;
  modify (fun s => set_recent_returns
            (deque_extend return_window_size (recent_returns s)
               (mask_select (vec_to_list (episode_r s)) (vec_to_list end_))) s) ;;
  modify (fun s => set_episode_r (mask_assign (episode_r s) end_ rzero) s) ;;
  modify (fun s => set_episode_len (mask_assign (episode_len s) end_ 0) s) ;;
  obss'' <- call (EvReset not_end) (reset env (Some not_end)) ;;
  modify (set_obss obss'').

(** Lines 62 to 109: everything before the evaluator is asked. *)
Definition before_evaluate : M unit :=
  transition ;;
  advance N ;;
  log_progress.

Definition loop_body : M bool :=
  before_evaluate ;;
  evaluate.

(** The truncation mask and the end mask of the iteration that starts
    in [s], when [env.step] returns the flags [dones]. *)
Definition resets_of (s : state) : vec bool N :=
  truncation_mask (int32_incr (episode_len s)).
Definition end_of (s : state) (dones : vec bool N) : vec bool N :=
  logical_or (resets_of s) dones.

(** The state after lines 62 to 91 of the iteration that starts in [s],
    when every call returns: [env.step] the rewards [rs] and the flags
    [dones], the masked reset the observations [o'] and the world
    [w]. *)
Definition after_transition (s : state) (rs : vec R N) (dones : vec bool N)
    (o' : Obss) (w : W) : state :=
  let r1 := accumulate (episode_r s) rs in
  let len1 := int32_incr (episode_len s) in
  let end_ := end_of s dones in
  State w
    (trace s ++ [EvAct; EvStep; EvObserve rs dones (resets_of s);
                 EvReset (logical_not end_)])
    (t s) o'
    (mask_assign r1 end_ rzero)
    (int32_add_mask (episode_idx s) end_)
    (mask_assign len1 end_ 0)
    (deque_extend return_window_size (recent_returns s)
       (mask_select (vec_to_list r1) (vec_to_list end_))).

(** ** The [while] loop (line 61) *)

(** How the loop was left when no exception was raised. *)
Inductive loop_exit : Type := BudgetExhausted | SuccessThreshold.

(** [fuel] bounds the number of iterations; [None] means that the fuel
    ran out before the loop was left. *)
Fixpoint loop (fuel : nat) (s : state) : option (res loop_exit * state) :=
  if t s <? steps then
    match fuel with
    | O => None
    | S fuel' =>
        match loop_body s with
        | (Ok true, s') => Some (Ok SuccessThreshold, s')
        | (Ok false, s') => loop fuel' s'
        | (Raise e, s') => Some (Raise e, s')
        end
    end
  else Some (Ok BudgetExhausted, s).

(** [iterations k s] is the state after [k] further iterations of the
    loop from [s], when each of them is entered, raises nothing and
    does not [break]. *)
Fixpoint iterations (k : nat) (s : state) : option state :=
  match k with
  | O => Some s
  | S k' =>
      if t s <? steps then
        match loop_body s with
        | (Ok false, s') => iterations k' s'
        | _ => None
        end
      else None
  end.

(** ** [try] / [except] / [else] (lines 60 and 117 to 126) *)

(** The [except] clause. *)
Definition on_exception (e : exn) : M loop_exit :=
  s <- get ;;
  call (EvSave (t s) "_except") (save_agent (t s) outdir "_except") ;;
  call EvEnvClose (close env) ;;
  match evaluator with
  | Some ev => call EvEvaluatorEnvClose (evaluator_env_close ev)
  | None => ret tt
  end ;;
  raise e.

(** The [else] clause. *)
Definition on_finish (x : loop_exit) : M loop_exit :=
  s <- get ;;
  call (EvSave (t s) "_finish") (save_agent (t s) outdir "_finish") ;;
  ret x.

Definition guarded_loop (fuel : nat) (s : state)
  : option (res loop_exit * state) :=
  match loop fuel s with
  | None => None
  | Some (Ok x, s') => Some (on_finish x s')
  | Some (Raise e, s') =>
      if caught e then Some (on_exception e s') else Some (Raise e, s')
  end.

(** ** [train_agent_batch] (lines 44 to 126) *)

(** The state at the [try]: [obss] is the result of [env.reset()]. *)
Definition init_state (w : W) (o : Obss) : state :=
  State (if has_t agent then set_t agent step_offset w else w)
        [EvResetAll] step_offset o
        (vreplicate N rzero) (vreplicate N 0) (vreplicate N 0) [].

(** The result is the way the function is left (the tag of a normal
    return records which exit of the loop was taken; Python returns
    [None]), the final world and the trace of the calls made. *)
Definition train_agent_batch (fuel : nat) (w : W)
  : option (res loop_exit * W * list event) :=
  match reset env None w with
  | (Raise e, w') => Some (Raise e, w', [EvResetAll])
  | (Ok o, w') =>
      match guarded_loop fuel (init_state w' o) with
      | None => None
      | Some (r, s) => Some (r, world s, trace s)
      end
  end.

(** ** Projections of the trace *)

(** The hook calls, as pairs of the position of the hook and the step
    it was given. *)
Definition hook_calls (tr : list event) : list (nat * Z) :=
  omap (fun ev => match ev with EvHook k v => Some (k, v) | _ => None end) tr.

(** The steps given to the hook at position [k]. *)
Definition hook_args (k : nat) (tr : list event) : list Z :=
  omap (fun ev => match ev with
                  | EvHook k' v => if (k' =? k)%nat then Some v else None
                  | _ => None
                  end) tr.

(** The calls of [save_agent], as pairs of step and suffix. *)
Definition saves (tr : list event) : list (Z * string) :=
  omap (fun ev => match ev with EvSave v sfx => Some (v, sfx) | _ => None end) tr.

(** The masks given to the masked [env.reset]. *)
Definition reset_masks (tr : list event) : list (vec bool N) :=
  omap (fun ev => match ev with EvReset m => Some m | _ => None end) tr.

(** The number of calls of [env.step], that is of batch iterations that
    reached it. *)
Definition env_steps (tr : list event) : nat :=
  length (omap (fun ev => match ev with EvStep => Some tt | _ => None end) tr).

(** The number of calls of [env.close] and of [evaluator.env.close]. *)
Definition env_closes (tr : list event) : nat :=
  length (omap (fun ev => match ev with EvEnvClose => Some tt | _ => None end) tr).
Definition evaluator_env_closes (tr : list event) : nat :=
  length (omap (fun ev => match ev with
                          | EvEvaluatorEnvClose => Some tt
                          | _ => None
                          end) tr).

(** The events of the loop itself: every call but those of the
    handlers and the first reset. *)
Definition loop_event (ev : event) : bool :=
  match ev with
  | EvSave _ _ | EvEnvClose | EvEvaluatorEnvClose | EvResetAll => false
  | _ => true
  end.

(** The events of lines 62 to 91, of the hooks, and of lines 98 to
    115. *)
Definition transition_event (ev : event) : bool :=
  match ev with
  | EvAct | EvStep | EvObserve _ _ _ | EvReset _ => true
  | _ => false
  end.
Definition hook_event (ev : event) : bool :=
  match ev with EvHook _ _ => true | _ => false end.
Definition report_event (ev : event) : bool :=
  match ev with
  | EvLogProgress _ _ | EvGetStatistics | EvLogStatistics | EvEvaluate _ _ => true
  | _ => false
  end.
Definition late_event (ev : event) : bool := hook_event ev || report_event ev.

(** The local arrays, the window and the observations are the same in
    two states. *)
Definition same_arrays (s s' : state) : Prop :=
  episode_r s' = episode_r s /\ episode_idx s' = episode_idx s /\
  episode_len s' = episode_len s /\ recent_returns s' = recent_returns s /\
  obss s' = obss s.

(** The same, and the step counter too. *)
Definition same_locals (s s' : state) : Prop :=
  same_arrays s s' /\ t s' = t s.

(** [s'] comes after [s] in a run: the trace has grown by events of the
    class [P], the step counter has not decreased, the window of
    returns has stayed within its bound, and [K] relates the two
    states. *)
Record follows (P : event -> bool) (K : state -> state -> Prop)
    (s s' : state) : Prop := {
  follows_trace :
    exists evs, trace s' = trace s ++ evs /\ Forall (fun ev => P ev = true) evs;
  follows_t : t s <= t s';
  follows_window :
    (length (recent_returns s) <= return_window_size)%nat ->
    (length (recent_returns s') <= return_window_size)%nat;
  follows_rel : K s s'
}.

(** A computation whose every run, returning or raising, [follows]. *)
Definition framed (P : event -> bool) (K : state -> state -> Prop)
    {A} (m : M A) : Prop :=
  forall s, follows P K s (m s).2.

Definition any_state (s s' : state) : Prop := True.

(** The calls of the [except] clause after [save_agent]. *)
Definition closing_events : list event :=
  EvEnvClose :: match evaluator with
                | Some _ => [EvEvaluatorEnvClose]
                | None => []
                end.

(** The hook calls of [n] ticks of the step counter after [t0]: at each
    tick, every hook in the order of the list. *)
Definition tick_calls (t0 : Z) (n : nat) : list (nat * Z) :=
  flat_map (fun j => map (fun k => (k, t0 + Z.of_nat j))
                         (seq 0 (length step_hooks)))
           (seq 1 n).

(** ** More projections of the trace *)

(** The calls of [evaluate_if_necessary], as pairs of step and episode
    count. *)
Definition evaluations (tr : list event) : list (Z * Z) :=
  omap (fun ev => match ev with EvEvaluate v n => Some (v, n) | _ => None end) tr.

(** The progress lines, as pairs of step and episode count. *)
Definition progress_logs (tr : list event) : list (Z * Z) :=
  omap (fun ev => match ev with EvLogProgress v n => Some (v, n) | _ => None end) tr.

(** The events of a list of hook calls. *)
Definition hook_events_of (calls : list (nat * Z)) : list event :=
  map (fun c : nat * Z => EvHook c.1 c.2) calls.

(** The test of line 98 on the step counter [v], for a [log_interval]
    that is not 0. *)
Definition log_due (v : Z) : bool :=
  match log_interval with
  | Some li => negb (v <? li) && (v mod li <? Z.of_nat N)
  | None => false
  end.

(** The calls of lines 101 to 109 when the progress is logged at step
    [v]. *)
Definition progress_events (v episodes : Z) : list event :=
  if log_due v then [EvLogProgress v episodes; EvGetStatistics; EvLogStatistics]
  else [].

(** The call of line 111 when there is an evaluator. *)
Definition evaluation_events (v episodes : Z) : list event :=
  match evaluator with
  | Some _ => [EvEvaluate v episodes]
  | None => []
  end.

(** The step counter is the same in two states. *)
Definition same_step (s s' : state) : Prop := t s' = t s.

End train.

(** ** [train_agent_batch_with_evaluation] (lines 129 to 204) *)

Section train_with_evaluation.
Context {W Obss Acts R Score Stats : Type}.
Context {N : nat}.

Variable radd : R -> R -> R.
Variable rzero : R.
Variable np_mean : list R -> R.
Variable score_ge : Score -> Score -> bool.

(** The keyword arguments of the constructor [Evaluator(...)] (lines 184
    to 192). *)
Record EvaluatorArgs : Type := {
  arg_agent : @Agent W Obss Acts R Stats N;
  arg_n_runs : Z;
  arg_eval_interval : Z;
  arg_outdir : string;
  arg_max_episode_len : option Z;
  arg_env : @Env W Obss Acts R N;
  arg_step_offset : Z;
  arg_save_best_so_far_agent : bool;
  arg_logger : @Logger W R Stats
}.

(** The calls made before the training starts. *)
Inductive setup_event : Type :=
| EvMakedirs (outdir : string) (exist_ok : bool)
| EvEvaluatorInit (args : EvaluatorArgs).

(** [makedirs(outdir, exist_ok)] and the constructor of the evaluator
    are collaborators too. *)
Variable makedirs : string -> bool -> @ext W unit.
Variable Evaluator_init : EvaluatorArgs -> @ext W (@Evaluator W Score).

Variable agent : @Agent W Obss Acts R Stats N.
Variable env : @Env W Obss Acts R N.
Variable steps : Z.
Variable eval_n_runs : Z.
Variable eval_interval : Z.
Variable outdir : string.
Variable max_episode_len : option Z.
Variable step_offset : Z.
Variable eval_max_episode_len : option Z.
Variable return_window_size : nat.
Variable eval_env : option (@Env W Obss Acts R N).
Variable log_interval : option Z.
Variable successful_score : option Score.
Variable step_hooks : list (@Hook W).
Variable save_best_so_far_agent : bool.
Variable logger : @Logger W R Stats.
Variable save_agent : Z -> string -> string -> @ext W unit.

(** Lines 178 to 192: the arguments given to the constructor, after the
    two defaults. *)
Definition evaluator_args : EvaluatorArgs :=
  let eval_env := match eval_env with None => env | Some e => e end in
  let eval_max_episode_len :=
    match eval_max_episode_len with
    | None => max_episode_len
    | Some m => Some m
    end in
  {| arg_agent := agent;
     arg_n_runs := eval_n_runs;
     arg_eval_interval := eval_interval;
     arg_outdir := outdir;
     arg_max_episode_len := eval_max_episode_len;
     arg_env := eval_env;
     arg_step_offset := step_offset;
     arg_save_best_so_far_agent := save_best_so_far_agent;
     arg_logger := logger |}.

(** The result is that of [train_agent_batch] (Python returns [None]),
    with the calls of the setup and the trace of the training. *)
Definition train_agent_batch_with_evaluation (fuel : nat) (w : W)
  : option (res loop_exit * W * list setup_event * list (@event R N)) :=
  match makedirs outdir true w with
  | (Raise e, w1) => Some (Raise e, w1, [EvMakedirs outdir true], [])
  | (Ok _, w1) =>
      match Evaluator_init evaluator_args w1 with
      | (Raise e, w2) =>
          Some (Raise e, w2,
                [EvMakedirs outdir true; EvEvaluatorInit evaluator_args], [])
      | (Ok evaluator, w2) =>
          match train_agent_batch radd rzero np_mean score_ge agent env steps
                  outdir log_interval max_episode_len step_offset
                  (Some evaluator) successful_score step_hooks
                  return_window_size logger save_agent fuel w2 with
          | None => None
          | Some (r, w3, tr) =>
              Some (r, w3,
                    [EvMakedirs outdir true; EvEvaluatorInit evaluator_args], tr)
          end
      end
  end.

End train_with_evaluation.

(** ** A small world for examples

    The world counts the calls of [env.step]; rewards and scores are
    integers; observations, actions and statistics carry nothing.  The
    environment follows a script that tells, for each call of
    [env.step], the rewards and done flags it returns or the exception it
    raises. *)

Module Demo.
Definition quiet_agent (n : nat) : @Agent nat unit unit Z unit n :=
  {| has_t := false;
     set_t := fun _ w => w;
     batch_act_and_train := fun _ w => (Ok tt, w);
     batch_observe_and_train := fun _ _ _ _ w => (Ok tt, w);
     get_statistics := fun w => (Ok tt, w) |}.

Definition scripted_env (n : nat) (script : nat -> res (vec Z n * vec bool n))
  : @Env nat unit unit Z n :=
  {| reset := fun _ w => (Ok tt, w);
     step := fun _ w =>
       (match script w with
        | Ok (rs, dones) => Ok (tt, rs, dones)
        | Raise e => Raise e
        end, S w);
     close := fun w => (Ok tt, w) |}.

Definition quiet_logger : @Logger nat Z unit :=
  {| info_progress := fun _ _ _ _ _ w => (Ok tt, w);
     info_statistics := fun _ w => (Ok tt, w) |}.

Definition quiet_hook : @Hook nat := fun _ w => (Ok tt, w).

(** An evaluator that evaluates at every call and whose best score is
    [score]. *)
Definition eager_evaluator (score : Z) : @Evaluator nat Z :=
  {| evaluate_if_necessary := fun _ _ w => (Ok true, w);
     max_score := fun _ => score;
     evaluator_env_close := fun w => (Ok tt, w) |}.

Definition save_ok : Z -> string -> string -> @ext nat unit :=
  fun _ _ _ w => (Ok tt, w).

Definition OSError : exn := Exn ExceptionCls "No space left on device".
Definition save_fails : Z -> string -> string -> @ext nat unit :=
  fun _ _ _ w => (Raise OSError, w).

Definition RuntimeError : exn := Exn ExceptionCls "env.step failed".
Definition SystemExit : exn := Exn BaseExceptionCls "SystemExit".

(** Scripts for one slot: the episode never ends; every step ends an
    episode; the second call of [env.step] raises. *)
Definition never_done : nat -> res (vec Z 1 * vec bool 1) :=
  fun _ => Ok ([# 1], [# false]).
Definition always_done : nat -> res (vec Z 1 * vec bool 1) :=
  fun _ => Ok ([# 1], [# true]).
Definition fails_at_second_step : nat -> res (vec Z 1 * vec bool 1) :=
  fun w => match w with 1%nat => Raise RuntimeError | _ => Ok ([# 1], [# false]) end.

(** A script for two slots: slot 0 is never done, slot 1 is done at
    every step. *)
Definition second_slot_done : nat -> res (vec Z 2 * vec bool 2) :=
  fun _ => Ok ([# 1; 10], [# false; true]).

(** [train_agent_batch] in this world, without logging. *)
Definition run {n : nat} (script : nat -> res (vec Z n * vec bool n))
    (steps : Z) (max_episode_len : option Z) (step_offset : Z)
    (evaluator : option (@Evaluator nat Z)) (successful_score : option Z)
    (step_hooks : list (@Hook nat)) (return_window_size : nat)
    (save_agent : Z -> string -> string -> @ext nat unit) (fuel : nat)
  : option (res loop_exit * nat * list (@event Z n)) :=
  train_agent_batch Z.add 0 (fun _ => 0) Z.geb (quiet_agent n)
    (scripted_env n script) steps "out" None max_episode_len step_offset
    evaluator successful_score step_hooks return_window_size quiet_logger
    save_agent fuel 0%nat.

(** One iteration of the loop in this world, without logging. *)
Definition body {n : nat} (script : nat -> res (vec Z n * vec bool n))
    (max_episode_len : option Z) (step_hooks : list (@Hook nat))
    (return_window_size : nat) : @M nat unit Z n bool :=
  loop_body Z.add 0 (fun _ => 0) Z.geb (quiet_agent n) (scripted_env n script)
    "out" None max_episode_len None None step_hooks return_window_size
    quiet_logger.

(** The state at the [try] in this world. *)
Definition start (n : nat) (step_offset : Z) : @state nat unit Z n :=
  init_state 0 (quiet_agent n) step_offset 0%nat tt.

(** The state after [k] iterations from the start, without hooks, with
    a window of three returns and no limit on the episode length. *)
Definition after_iterations {n : nat} (script : nat -> res (vec Z n * vec bool n))
    (steps : Z) (k : nat) : option (@state nat unit Z n) :=
  iterations Z.add 0 (fun _ => 0) Z.geb (quiet_agent n) (scripted_env n script)
    steps "out" None None None None [] 3 quiet_logger k (start n 0).

(** One slot after the first step of an episode that has not ended. *)
Definition after_one_step : @state nat unit Z 1 :=
  State 1%nat
    [EvResetAll; EvAct; EvStep; EvObserve [# 1] [# false] [# false];
     EvReset [# true]]
    1 tt [# 1] [# 0] [# 1] [].

(** A script for two slots that both end their episode at every step,
    with rewards 1 and 10. *)
Definition both_done : nat -> res (vec Z 2 * vec bool 2) :=
  fun _ => Ok ([# 1; 10], [# true; true]).

(** A script for one slot whose first step leaves the interpreter. *)
Definition exits_at_once : nat -> res (vec Z 1 * vec bool 1) :=
  fun _ => Raise SystemExit.

(** One iteration with a progress line every [li] steps. *)
Definition logging_body {n : nat} (script : nat -> res (vec Z n * vec bool n))
    (li : Z) : @M nat unit Z n bool :=
  loop_body Z.add 0 (fun _ => 0) Z.geb (quiet_agent n) (scripted_env n script)
    "out" (Some li) None None None [] 3 quiet_logger.

(** The loop from the start, with one hook and without logging. *)
Definition loop_from_start {n : nat} (script : nat -> res (vec Z n * vec bool n))
    (steps : Z) (evaluator : option (@Evaluator nat Z))
    (successful_score : option Z) (fuel : nat)
  : option (res loop_exit * @state nat unit Z n) :=
  loop Z.add 0 (fun _ => 0) Z.geb (quiet_agent n) (scripted_env n script)
    steps "out" None None evaluator successful_score [quiet_hook] 3
    quiet_logger fuel (start n 0).

(** [k] iterations from the start with an evaluator. *)
Definition evaluated_iterations {n : nat}
    (script : nat -> res (vec Z n * vec bool n)) (steps : Z)
    (evaluator : option (@Evaluator nat Z)) (k : nat)
  : option (@state nat unit Z n) :=
  iterations Z.add 0 (fun _ => 0) Z.geb (quiet_agent n) (scripted_env n script)
    steps "out" None None evaluator (Some 1) [] 3 quiet_logger k (start n 0).

(** An environment whose reset fails. *)
Definition broken_env : @Env nat unit unit Z 1 :=
  {| reset := fun _ w => (Raise RuntimeError, w);
     step := fun _ w => (Raise RuntimeError, w);
     close := fun w => (Ok tt, w) |}.

(** The script of an environment without slots. *)
Definition no_slots : nat -> res (vec Z 0 * vec bool 0) :=
  fun _ => Ok ([# ], [# ]).

(** [makedirs] and a constructor of evaluators that evaluate at every
    call, have best score 0 and keep the environment they are given. *)
Definition makedirs_ok : string -> bool -> @ext nat unit :=
  fun _ _ w => (Ok tt, w).
Definition make_evaluator {n : nat}
  : @EvaluatorArgs nat unit unit Z unit n -> @ext nat (@Evaluator nat Z) :=
  fun a w =>
    (Ok {| evaluate_if_necessary := fun _ _ w => (Ok true, w);
           max_score := fun _ => 0;
           evaluator_env_close := close (arg_env a) |}, w).

(** [train_agent_batch_with_evaluation] in this world, with neither
    [eval_env] nor [eval_max_episode_len]. *)
Definition run_with_evaluation {n : nat}
    (script : nat -> res (vec Z n * vec bool n)) (steps : Z) (fuel : nat)
  : option (res loop_exit * nat
            * list (@setup_event nat unit unit Z unit n) * list (@event Z n)) :=
  train_agent_batch_with_evaluation Z.add 0 (fun _ => 0) Z.geb makedirs_ok
    make_evaluator (quiet_agent n) (scripted_env n script) steps 1 1 "out"
    None 0 None 3 None None (Some 1) [] true quiet_logger save_ok fuel 0%nat.

(** [KeyboardInterrupt], raised in whatever call is running when the
    user interrupts the program; here the second call of [env.step]. *)
Definition KeyboardInterrupt : exn := Exn KeyboardInterruptCls "KeyboardInterrupt".
Definition interrupted_at_second_step : nat -> res (vec Z 1 * vec bool 1) :=
  fun w => match w with
           | 1%nat => Raise KeyboardInterrupt
           | _ => Ok ([# 1], [# false])
           end.

(** An environment whose [close] fails. *)
Definition BrokenPipeError : exn := Exn ExceptionCls "Broken pipe".
Definition unclosable_env {n : nat} (script : nat -> res (vec Z n * vec bool n))
  : @Env nat unit unit Z n :=
  {| reset := reset (scripted_env n script);
     step := step (scripted_env n script);
     close := fun w => (Raise BrokenPipeError, w) |}.

(** A script for two slots with rewards 1 and 10: slot 1 is done at the
    first step only, slot 0 is never done. *)
Definition second_slot_done_once : nat -> res (vec Z 2 * vec bool 2) :=
  fun w => match w with
           | 0%nat => Ok ([# 1; 10], [# false; true])
           | _ => Ok ([# 1; 10], [# false; false])
           end.

(** The state after the first iteration of that script, without hooks:
    slot 0 is one step into its first episode, with return 1; slot 1 has
    ended an episode of return 10 and starts its second one. *)
Definition after_second_slot_done : @state nat unit Z 2 :=
  State 1%nat
    [EvResetAll; EvAct; EvStep; EvObserve [# 1; 10] [# false; true] [# false; false];
     EvReset [# true; false]]
    2 tt [# 1; 0] [# 0; 1] [# 1; 0] [10].

(** *** An environment with a state per slot

    The world is the number of calls of [env.step] and, for each slot,
    the position of its sub-environment: the number of steps it has made
    since it was last restarted.  A step moves every slot by one; the
    masked reset is the one of the spec, restarting a slot at position
    0; the reset without mask restarts every slot. *)
Definition slot_world (n : nat) : Type := (nat * vec Z n)%type.

Definition slot_agent (n : nat) : @Agent (slot_world n) unit unit Z unit n :=
  {| has_t := false;
     set_t := fun _ w => w;
     batch_act_and_train := fun _ w => (Ok tt, w);
     batch_observe_and_train := fun _ _ _ _ w => (Ok tt, w);
     get_statistics := fun w => (Ok tt, w) |}.

Definition slot_env (n : nat) (script : nat -> res (vec Z n * vec bool n))
  : @Env (slot_world n) unit unit Z n :=
  {| reset := fun mask w =>
       (Ok tt,
        (w.1, match mask with
              | Some keep => masked_reset (fun _ => 0) keep w.2
              | None => vreplicate n 0
              end));
     step := fun _ w =>
       (match script w.1 with
        | Ok (rs, dones) => Ok (tt, rs, dones)
        | Raise e => Raise e
        end, (S w.1, vmap (fun p => p + 1) w.2));
     close := fun w => (Ok tt, w) |}.

Definition slot_logger (n : nat) : @Logger (slot_world n) Z unit :=
  {| info_progress := fun _ _ _ _ _ w => (Ok tt, w);
     info_statistics := fun _ w => (Ok tt, w) |}.

(** The lines 62 to 91 of an iteration in this world. *)
Definition slot_transition {n : nat} (script : nat -> res (vec Z n * vec bool n))
    (max_episode_len : option Z) : @M (slot_world n) unit Z n unit :=
  transition Z.add 0 (slot_agent n) (slot_env n script) max_episode_len 3.

(** One iteration in this world, without hooks, logging or evaluator. *)
Definition slot_body {n : nat} (script : nat -> res (vec Z n * vec bool n))
    (max_episode_len : option Z) : @M (slot_world n) unit Z n bool :=
  loop_body Z.add 0 (fun _ => 0) Z.geb (slot_agent n) (slot_env n script)
    "out" None max_episode_len None None [] 3 (slot_logger n).

(** The state at the [try], and the state after the first iteration of
    the script [second_slot_done_once]: slot 0 is at position 1, slot 1
    was restarted. *)
Definition slot_start (n : nat) : @state (slot_world n) unit Z n :=
  init_state 0 (slot_agent n) 0 (0%nat, vreplicate n 0) tt.
Definition slot_after_one : @state (slot_world 2) unit Z 2 :=
  State (1%nat, [# 1; 0])
    [EvResetAll; EvAct; EvStep; EvObserve [# 1; 10] [# false; true] [# false; false];
     EvReset [# true; false]]
    2 tt [# 1; 0] [# 0; 1] [# 1; 0] [10].

End Demo.

(** ** Arithmetic of int32 *)

Lemma wrap_int32_range z : int32_range (wrap_int32 z).
Proof.
  unfold int32_range, wrap_int32, INT32_MIN, INT32_MAX.
  pose proof (Z.mod_pos_bound (z + 2 ^ 31) (2 ^ 32) ltac:(lia)). lia.
Qed.

Lemma wrap_int32_id z : int32_range z -> wrap_int32 z = z.
Proof.
  unfold int32_range, wrap_int32, INT32_MIN, INT32_MAX. intros Hz.
  rewrite Z.mod_small by lia. lia.
Qed.

Lemma wrap_int32_succ z :
  int32_range z -> z < INT32_MAX -> wrap_int32 (z + 1) = z + 1.
Proof.
  unfold int32_range, INT32_MIN, INT32_MAX. intros Hz Hlt.
  apply wrap_int32_id. unfold int32_range, INT32_MIN, INT32_MAX. lia.
Qed.

Lemma wrap_int32_max : wrap_int32 (INT32_MAX + 1) = INT32_MIN.
Proof. reflexivity. Qed.

(** ** The deque *)

Section deque_facts.
Context {A : Type}.
Implicit Types (d xs : list A) (x : A).

Lemma deque_append_length maxlen d x :
  (length d <= maxlen)%nat -> (length (deque_append maxlen d x) <= maxlen)%nat.
Proof.
  intros Hd. unfold deque_append. cbn zeta.
  destruct (Nat.ltb_spec maxlen (length (d ++ [x]))) as [Hlt|Hle]; [|lia].
  rewrite length_app in Hlt. cbn in Hlt.
  destruct d as [|y d]; cbn in *; [lia|].
  rewrite length_app. cbn. lia.
Qed.

Lemma deque_extend_length maxlen d xs :
  (length d <= maxlen)%nat -> (length (deque_extend maxlen d xs) <= maxlen)%nat.
Proof.
  unfold deque_extend. revert d.
  induction xs as [|x xs IH]; intros d Hd; cbn; [done|].
  apply IH, deque_append_length, Hd.
Qed.

Lemma deque_append_room maxlen d x :
  (length d < maxlen)%nat -> deque_append maxlen d x = d ++ [x].
Proof.
  intros Hd. unfold deque_append. cbn zeta.
  destruct (Nat.ltb_spec maxlen (length (d ++ [x]))) as [Hlt|Hle]; [|done].
  rewrite length_app in Hlt. cbn in Hlt. lia.
Qed.

Lemma deque_append_full maxlen d x :
  length d = maxlen -> deque_append maxlen d x = tail (d ++ [x]).
Proof.
  intros Hd. unfold deque_append. cbn zeta.
  destruct (Nat.ltb_spec maxlen (length (d ++ [x]))) as [Hlt|Hle]; [done|].
  rewrite length_app in Hle. cbn in Hle. lia.
Qed.

Lemma deque_append_evict maxlen y d x :
  length (y :: d) = maxlen -> deque_append maxlen (y :: d) x = d ++ [x].
Proof. intros Hd. rewrite deque_append_full by done. reflexivity. Qed.

Lemma mask_select_In xs (mask : list bool) (i : nat) x :
  xs !! i = Some x -> mask !! i = Some true -> In x (mask_select xs mask).
Proof.
  revert mask i. induction xs as [|y xs IH]; intros [|b mask] [|i] Hx Hm;
    cbn in *; try discriminate.
  - injection Hx as ->. injection Hm as ->. now left.
  - destruct b; [right|]; eauto.
Qed.
End deque_facts.

(** ** The per-slot arrays *)

Section array_facts.
Context {n : nat}.

Lemma lookup_mask_assign {A} (a : vec A n) (mask : vec bool n) v (i : fin n) :
  mask_assign a mask v !!! i = if (mask !!! i : bool) then v else a !!! i.
Proof. unfold mask_assign. now rewrite vlookup_zip_with. Qed.

Lemma lookup_int32_incr (a : vec Z n) (i : fin n) :
  int32_incr a !!! i = wrap_int32 (a !!! i + 1).
Proof. unfold int32_incr. now rewrite vlookup_map. Qed.

Lemma lookup_int32_add_mask (a : vec Z n) (mask : vec bool n) (i : fin n) :
  int32_add_mask a mask !!! i = wrap_int32 (a !!! i + Z.b2z (mask !!! i)).
Proof. unfold int32_add_mask. now rewrite vlookup_zip_with. Qed.

Lemma lookup_array_eq (a : vec Z n) v (i : fin n) :
  array_eq a v !!! i = (a !!! i =? v).
Proof. unfold array_eq. now rewrite vlookup_map. Qed.

Lemma lookup_logical_or (a b : vec bool n) (i : fin n) :
  logical_or a b !!! i = a !!! i || b !!! i.
Proof. unfold logical_or. now rewrite vlookup_zip_with. Qed.

Lemma lookup_logical_not (a : vec bool n) (i : fin n) :
  logical_not a !!! i = negb (a !!! i).
Proof. unfold logical_not. now rewrite vlookup_map. Qed.

Lemma mask_select_vec_In {A} (a : vec A n) (mask : vec bool n) (i : fin n) :
  mask !!! i = true ->
  In (a !!! i) (mask_select (vec_to_list a) (vec_to_list mask)).
Proof.
  intros Hm. apply (mask_select_In _ _ (fin_to_nat i)).
  - now apply vlookup_lookup.
  - now apply vlookup_lookup.
Qed.
End array_facts.


(** [a[mask]] slot by slot: the entries of the slots whose mask entry is
    true, in the order of the slots. *)
Lemma mask_select_slots {A} {n : nat} (a : vec A n) (mask : vec bool n) :
  mask_select (vec_to_list a) (vec_to_list mask)
  = omap (fun i : fin n => if (mask !!! i : bool) then Some (a !!! i) else None)
         (fin_enum n).
Proof.
  induction n as [|n IH].
  - inv_vec a. inv_vec mask. reflexivity.
  - inv_vec a; intros x a. inv_vec mask; intros b mask.
    cbn [vec_to_list mask_select fin_enum omap list_omap].
    assert (Htl : omap (fun i : fin (S n) =>
                          if ((b ::: mask) !!! i : bool)
                          then Some ((x ::: a) !!! i) else None)
                       (FS <$> fin_enum n)
                  = mask_select (vec_to_list a) (vec_to_list mask)).
    { rewrite IH. generalize (fin_enum n). intros l.
      induction l as [|j l IHl]; [reflexivity|].
      cbn [fmap list_fmap omap list_omap]. rewrite IHl. reflexivity. }
    rewrite Htl. now destruct b.
Qed.

(** The slots selected by a mask are selected by any function that
    agrees with it. *)
Lemma omap_slots_ext {A} {n : nat} (f g : fin n -> option A) :
  (forall i, f i = g i) -> omap f (fin_enum n) = omap g (fin_enum n).
Proof.
  intros Hfg. induction (fin_enum n) as [|i l IH]; [reflexivity|].
  cbn [omap list_omap]. now rewrite Hfg, IH.
Qed.

(** Reduction of the projections of a state built by the setters. *)
Ltac simpl_state :=
  cbn [world trace t obss episode_r episode_idx episode_len recent_returns
       set_world log_event set_step set_obss set_episode_r set_episode_idx
       set_episode_len set_recent_returns fst snd].

(** ** The phases of one iteration *)

Section properties.
Context {W Obss Acts R Score Stats : Type} {N : nat}.
Variable radd : R -> R -> R.
Variable rzero : R.
Variable np_mean : list R -> R.
Variable score_ge : Score -> Score -> bool.
Variable agent : @Agent W Obss Acts R Stats N.
Variable env : @Env W Obss Acts R N.
Variable steps : Z.
Variable outdir : string.
Variable log_interval : option Z.
Variable max_episode_len : option Z.
Variable step_offset : Z.
Variable evaluator : option (@Evaluator W Score).
Variable successful_score : option Score.
Variable step_hooks : list (@Hook W).
Variable return_window_size : nat.
Variable logger : @Logger W R Stats.
Variable save_agent : Z -> string -> string -> @ext W unit.

Local Abbreviation state := (@state W Obss R N).
Local Abbreviation event := (@event R N).
Local Abbreviation transition :=
  (transition radd rzero agent env max_episode_len return_window_size).
Local Abbreviation advance := (@advance W Obss R N step_hooks).
Local Abbreviation log_progress :=
  (@log_progress W Obss Acts R Stats N np_mean agent outdir log_interval logger).
Local Abbreviation evaluate :=
  (@evaluate W Obss R Score N score_ge evaluator successful_score).
Local Abbreviation before_evaluate :=
  (before_evaluate radd rzero np_mean agent env outdir log_interval
     max_episode_len step_hooks return_window_size logger).
Local Abbreviation loop_body :=
  (loop_body radd rzero np_mean score_ge agent env outdir log_interval
     max_episode_len evaluator successful_score step_hooks
     return_window_size logger).
Local Abbreviation loop :=
  (loop radd rzero np_mean score_ge agent env steps outdir log_interval
     max_episode_len evaluator successful_score step_hooks
     return_window_size logger).
Local Abbreviation iterations :=
  (iterations radd rzero np_mean score_ge agent env steps outdir
     log_interval max_episode_len evaluator successful_score step_hooks
     return_window_size logger).
Local Abbreviation guarded_loop :=
  (guarded_loop radd rzero np_mean score_ge agent env steps outdir
     log_interval max_episode_len evaluator successful_score step_hooks
     return_window_size logger save_agent).
Local Abbreviation train_agent_batch :=
  (train_agent_batch radd rzero np_mean score_ge agent env steps outdir
     log_interval max_episode_len step_offset evaluator successful_score
     step_hooks return_window_size logger save_agent).
Local Abbreviation on_exception :=
  (@on_exception W Obss Acts R Score N env outdir evaluator save_agent).
Local Abbreviation on_finish := (@on_finish W Obss R N outdir save_agent).
Local Abbreviation init_state :=
  (@init_state W Obss Acts R Stats N rzero agent step_offset).
Local Abbreviation truncation_mask := (@truncation_mask N max_episode_len).
Local Abbreviation tick_calls := (@tick_calls W step_hooks).
Local Abbreviation closing_events := (@closing_events W R Score N evaluator).
Local Abbreviation resets_of := (@resets_of W Obss R N max_episode_len).
Local Abbreviation end_of := (@end_of W Obss R N max_episode_len).
Local Abbreviation after_transition :=
  (@after_transition W Obss R N radd rzero max_episode_len return_window_size).

Local Abbreviation same_arrays := (@same_arrays W Obss R N).
Local Abbreviation same_locals := (@same_locals W Obss R N).

Local Abbreviation follows := (@follows W Obss R N return_window_size).
Local Abbreviation framed := (@framed W Obss R N return_window_size).
Local Abbreviation any_state := (@any_state W Obss R N).

(** *** What a part of an iteration leaves alone *)
Section frame.
Variable P : event -> bool.
Variable K : state -> state -> Prop.
Hypothesis K_refl : forall s, K s s.
Hypothesis K_trans : forall s1 s2 s3, K s1 s2 -> K s2 s3 -> K s1 s3.
Hypothesis K_call :
  forall s ev w, K s (set_world w (log_event ev s)).

Local Abbreviation follows := (follows P K).
Local Abbreviation framed := (framed P K).

Lemma follows_refl s : follows s s.
Proof using K_refl.
  split; [|lia|done|apply K_refl].
  exists []. split; [now rewrite app_nil_r|constructor].
Qed.

Lemma follows_trans s1 s2 s3 :
  follows s1 s2 -> follows s2 s3 -> follows s1 s3.
Proof using K_trans.
  intros [(e1 & H1 & F1) T1 W1 K1] [(e2 & H2 & F2) T2 W2 K2].
  split; [|lia|auto|eauto].
  exists (e1 ++ e2). split.
  - rewrite H2, H1. now rewrite app_assoc.
  - apply Forall_app. split; assumption.
Qed.

Lemma follows_call {A} ev (op : ext A) s :
  P ev = true -> follows s (call ev op s).2.
Proof using K_call.
  intros Hev. unfold call. cbn.
  destruct (op (world s)) as [r w]. cbn.
  split; cbn; [|lia|done|apply K_call].
  exists [ev]. split; [done|]. repeat constructor. exact Hev.
Qed.

Lemma framed_ret {A} (a : A) : framed (ret a).
Proof using K_refl. intros s. apply follows_refl. Qed.

Lemma framed_raise {A} e : framed (@raise W Obss R N A e).
Proof using K_refl. intros s. apply follows_refl. Qed.

Lemma follows_bind {A B} (m : M A) (f : A -> M B) s :
  follows s (m s).2 -> (forall a, framed (f a)) -> follows s (bind m f s).2.
Proof using K_trans.
  intros Hm Hf. unfold bind.
  destruct (m s) as [[a|e] s1]; cbn in *; [|exact Hm].
  eapply follows_trans; [exact Hm|apply Hf].
Qed.

Lemma framed_bind {A B} (m : M A) (f : A -> M B) :
  framed m -> (forall a, framed (f a)) -> framed (bind m f).
Proof using K_trans. intros Hm Hf s. apply follows_bind; [apply Hm|exact Hf]. Qed.

Lemma framed_get_bind {A} (f : state -> M A) :
  (forall s, follows s (f s s).2) -> framed (bind get f).
Proof. intros Hf s. unfold bind, get. apply Hf. Qed.

Lemma framed_call {A} ev (op : ext A) :
  P ev = true -> framed (call ev op).
Proof using K_call. intros Hev s. now apply follows_call. Qed.

Lemma framed_modify (f : state -> state) :
  (forall s, follows s (f s)) -> framed (modify f).
Proof. intros Hf s. apply Hf. Qed.

Lemma follows_locals s s' :
  trace s' = trace s -> t s <= t s' ->
  ((length (recent_returns s) <= return_window_size)%nat ->
   (length (recent_returns s') <= return_window_size)%nat) ->
  K s s' ->
  follows s s'.
Proof.
  intros Htr Ht Hw HK. split; [|done|done|done].
  exists []. split; [now rewrite app_nil_r|constructor].
Qed.
End frame.

Lemma follows_mono (P P' : event -> bool) (K K' : state -> state -> Prop) s s' :
  (forall ev, P ev = true -> P' ev = true) ->
  (forall s s', K s s' -> K' s s') ->
  follows P K s s' -> follows P' K' s s'.
Proof.
  intros HP HK [(evs & Htr & HF) Ht Hw Hk].
  split; [|done|done|auto].
  exists evs. split; [done|]. eapply Forall_impl; [exact HF|]. auto.
Qed.

Lemma framed_mono (P P' : event -> bool) (K K' : state -> state -> Prop)
    {A} (m : M A) :
  (forall ev, P ev = true -> P' ev = true) ->
  (forall s s', K s s' -> K' s s') ->
  framed P K m -> framed P' K' m.
Proof. intros HP HK Hm s. eapply follows_mono; [exact HP|exact HK|apply Hm]. Qed.

Lemma same_arrays_refl s : same_arrays s s.
Proof. now repeat split. Qed.

Lemma same_arrays_trans s1 s2 s3 :
  same_arrays s1 s2 -> same_arrays s2 s3 -> same_arrays s1 s3.
Proof.
  unfold same_arrays. intros (-> & -> & -> & -> & ->) (-> & -> & -> & -> & ->).
  now repeat split.
Qed.

Lemma same_arrays_call s ev w : same_arrays s (set_world w (log_event ev s)).
Proof. now repeat split. Qed.

Local Abbreviation late := (follows late_event same_arrays).
Local Abbreviation framed_late := (framed late_event same_arrays).
Local Abbreviation framed_loop := (framed loop_event any_state).

Create HintDb frame.
Local Hint Resolve same_arrays_refl same_arrays_trans same_arrays_call : frame.

Lemma framed_run_hooks hooks k : framed_late (run_hooks k hooks).
Proof.
  revert k. induction hooks as [|h hooks IH]; intros k; cbn.
  - apply framed_ret; auto with frame.
  - apply framed_get_bind. intros s.
    apply follows_bind; [eauto with frame| |].
    + apply follows_call; auto with frame.
    + intros _. apply IH.
Qed.

Lemma framed_advance n : framed_late (advance n).
Proof.
  induction n as [|n IH]; cbn.
  - apply framed_ret; auto with frame.
  - apply framed_bind; [eauto with frame| |].
    + apply framed_modify. intros s.
      apply follows_locals; cbn; [done|lia|done|now repeat split].
    + intros _. apply framed_bind; [eauto with frame|apply framed_run_hooks|].
      intros _; exact IH.
Qed.

Lemma same_locals_refl s : same_locals s s.
Proof. split; [apply same_arrays_refl|done]. Qed.

Lemma same_locals_trans s1 s2 s3 :
  same_locals s1 s2 -> same_locals s2 s3 -> same_locals s1 s3.
Proof.
  intros [A1 T1] [A2 T2]. split; [eapply same_arrays_trans; eassumption|congruence].
Qed.

Lemma same_locals_call s ev w : same_locals s (set_world w (log_event ev s)).
Proof. split; [apply same_arrays_call|done]. Qed.

Local Hint Resolve same_locals_refl same_locals_trans same_locals_call : frame.

Local Abbreviation framed_report := (framed report_event same_locals).

Lemma framed_log_progress : framed_report log_progress.
Proof.
  unfold log_progress.
  destruct log_interval as [li|]; [|apply framed_ret; auto with frame].
  apply framed_get_bind. intros s.
  destruct (t s <? li); [apply follows_refl; auto with frame|].
  destruct (li =? 0); [apply follows_refl; auto with frame|].
  destruct (t s mod li <? Z.of_nat N); [|apply follows_refl; auto with frame].
  apply follows_bind; [eauto with frame|apply follows_call; auto with frame|intros _].
  apply framed_bind; [eauto with frame|apply framed_call; auto with frame|intros stats].
  apply framed_call; auto with frame.
Qed.

Lemma framed_evaluate : framed_report evaluate.
Proof.
  unfold evaluate.
  destruct evaluator as [ev|]; [|apply framed_ret; auto with frame].
  apply framed_get_bind. intros s.
  apply follows_bind; [eauto with frame|apply follows_call; auto with frame|intros ran].
  destruct ran; [|apply framed_ret; auto with frame].
  apply framed_get_bind. intros s'.
  destruct successful_score; apply follows_refl; auto with frame.
Qed.

Lemma report_is_late_event (ev : event) : report_event ev = true -> late_event ev = true.
Proof. now destruct ev. Qed.

Lemma framed_report_late {A} (m : M A) : framed_report m -> framed_late m.
Proof. apply framed_mono; [apply report_is_late_event|now intros ? ? [? _]]. Qed.

Lemma framed_transition : framed transition_event any_state transition.
Proof.
  assert (Hr : forall s, any_state s s) by done.
  assert (Ht : forall s1 s2 s3, any_state s1 s2 -> any_state s2 s3 -> any_state s1 s3) by done.
  assert (Hc : forall s ev w, any_state s (set_world w (log_event ev s))) by done.
  assert (Hm : forall f : state -> state,
             (forall s, trace (f s) = trace s) -> (forall s, t (f s) = t s) ->
             (forall s, recent_returns (f s) = recent_returns s) ->
             framed transition_event any_state (modify f)).
  { intros f H1 H2 H3. apply framed_modify. intros s.
    apply follows_locals; [apply H1|rewrite H2; lia|now rewrite H3|done]. }
  unfold transition.
  apply framed_get_bind. intros s0.
  apply follows_bind; [done|now apply follows_call|intros acts].
  apply framed_bind; [done|now apply framed_call|intros [[o rs] dones]].
  apply framed_bind; [done|now apply Hm|intros _].
  apply framed_bind; [done|now apply Hm|intros _].
  apply framed_bind; [done|now apply Hm|intros _].
  apply framed_get_bind. intros s1.
  apply follows_bind; [done|now apply follows_call|intros _].
  apply framed_bind; [done|now apply Hm|intros _].
  apply framed_bind; [done| |intros _].
  { apply framed_modify. intros s. apply follows_locals; cbn; [done|lia| |done].
    intros Hw. now apply deque_extend_length. }
  apply framed_bind; [done|now apply Hm|intros _].
  apply framed_bind; [done|now apply Hm|intros _].
  apply framed_bind; [done|now apply framed_call|intros o'].
  now apply Hm.
Qed.

Lemma late_is_loop_event (ev : event) : late_event ev = true -> loop_event ev = true.
Proof. now destruct ev. Qed.

Lemma transition_is_loop_event (ev : event) :
  transition_event ev = true -> loop_event ev = true.
Proof. now destruct ev. Qed.

Lemma framed_loop_body : framed_loop loop_body.
Proof.
  assert (Hl : forall A (m : M A), framed_late m -> framed_loop m).
  { intros A m. apply framed_mono; [apply late_is_loop_event|done]. }
  unfold loop_body, before_evaluate.
  apply framed_bind; [done| |intros _; apply Hl, framed_report_late, framed_evaluate].
  apply framed_bind; [done| |intros _].
  { eapply framed_mono; [apply transition_is_loop_event| |apply framed_transition]. done. }
  apply framed_bind; [done|apply Hl, framed_advance|].
  intros _; apply Hl, framed_report_late, framed_log_progress.
Qed.

(** *** Projections of the trace *)

Lemma omap_class {B} (f : event -> option B) (P : event -> bool) evs :
  (forall ev, P ev = true -> f ev = None) ->
  Forall (fun ev => P ev = true) evs -> omap f evs = [].
Proof.
  intros Hf HF. induction HF as [|ev evs Hev _ IH]; [done|].
  cbn. now rewrite (Hf ev Hev), IH.
Qed.

Lemma hook_calls_app (e1 e2 : list event) :
  hook_calls (e1 ++ e2) = hook_calls e1 ++ hook_calls e2.
Proof. apply omap_app. Qed.

Lemma hook_args_app k (e1 e2 : list event) :
  hook_args k (e1 ++ e2) = hook_args k e1 ++ hook_args k e2.
Proof. apply omap_app. Qed.

Lemma saves_app (e1 e2 : list event) : saves (e1 ++ e2) = saves e1 ++ saves e2.
Proof. apply omap_app. Qed.

Lemma reset_masks_app (e1 e2 : list event) :
  reset_masks (e1 ++ e2) = reset_masks e1 ++ reset_masks e2.
Proof. apply omap_app. Qed.

Lemma env_steps_app (e1 e2 : list event) :
  env_steps (e1 ++ e2) = (env_steps e1 + env_steps e2)%nat.
Proof. unfold env_steps. now rewrite omap_app, length_app. Qed.

Lemma env_closes_app (e1 e2 : list event) :
  env_closes (e1 ++ e2) = (env_closes e1 + env_closes e2)%nat.
Proof. unfold env_closes. now rewrite omap_app, length_app. Qed.

Lemma evaluator_env_closes_app (e1 e2 : list event) :
  evaluator_env_closes (e1 ++ e2)
  = (evaluator_env_closes e1 + evaluator_env_closes e2)%nat.
Proof. unfold evaluator_env_closes. now rewrite omap_app, length_app. Qed.

Lemma saves_loop_events (evs : list event) :
  Forall (fun ev => loop_event ev = true) evs -> saves evs = [].
Proof. apply omap_class. now intros []. Qed.

Lemma env_closes_loop_events (evs : list event) :
  Forall (fun ev => loop_event ev = true) evs -> env_closes evs = 0%nat.
Proof.
  intros HF. unfold env_closes. rewrite (omap_class _ loop_event); [done| |done].
  now intros [].
Qed.

Lemma evaluator_env_closes_loop_events (evs : list event) :
  Forall (fun ev => loop_event ev = true) evs -> evaluator_env_closes evs = 0%nat.
Proof.
  intros HF. unfold evaluator_env_closes.
  rewrite (omap_class _ loop_event); [done| |done]. now intros [].
Qed.

Lemma env_steps_late_events (evs : list event) :
  Forall (fun ev => late_event ev = true) evs -> env_steps evs = 0%nat.
Proof.
  intros HF. unfold env_steps. rewrite (omap_class _ late_event); [done| |done].
  now intros [].
Qed.

Lemma reset_masks_late_events (evs : list event) :
  Forall (fun ev => late_event ev = true) evs -> reset_masks evs = [].
Proof. apply omap_class. now intros []. Qed.

Lemma hook_calls_report_events (evs : list event) :
  Forall (fun ev => report_event ev = true) evs -> hook_calls evs = [].
Proof. apply omap_class. now intros []. Qed.

(** *** The hooks and the step counter *)

Lemma tick_calls_0 t0 : tick_calls t0 0 = [].
Proof. reflexivity. Qed.

Lemma tick_calls_succ t0 n :
  tick_calls t0 (S n)
  = map (fun k => (k, t0 + 1)) (seq 0 (length step_hooks)) ++ tick_calls (t0 + 1) n.
Proof.
  unfold tick_calls. cbn [seq flat_map]. f_equal.
  rewrite <- (seq_shift n 1), flat_map_concat_map, map_map, <- flat_map_concat_map.
  apply flat_map_ext. intros j. apply map_ext. intros k. f_equal. lia.
Qed.

Lemma tick_calls_add t0 n m :
  tick_calls t0 (n + m) = tick_calls t0 n ++ tick_calls (t0 + Z.of_nat n) m.
Proof.
  revert t0. induction n as [|n IH]; intros t0.
  - cbn [Nat.add]. rewrite tick_calls_0. cbn. f_equal. lia.
  - cbn [Nat.add]. rewrite !tick_calls_succ, IH, <- app_assoc.
    do 3 f_equal. lia.
Qed.

Lemma run_hooks_ok hooks k (s s' : state) :
  run_hooks k hooks s = (Ok tt, s') ->
  t s' = t s /\
  exists evs, trace s' = trace s ++ evs /\
    hook_calls evs = map (fun j => (j, t s)) (seq k (length hooks)).
Proof.
  revert k s. induction hooks as [|h hooks IH]; intros k s; cbn.
  - unfold ret. intros [= <-]. split; [done|]. exists []. now rewrite app_nil_r.
  - unfold bind at 1, call. cbn.
    destruct (h (t s) (world s)) as [[[]|e] w]; [|discriminate].
    intros Hrest. apply IH in Hrest as (Ht & evs & Htr & Hc). cbn in *.
    split; [done|]. exists (EvHook k (t s) :: evs). split.
    + rewrite Htr. now rewrite <- app_assoc.
    + change (hook_calls (EvHook k (t s) :: evs)) with ((k, t s) :: hook_calls evs).
      now rewrite Hc.
Qed.

Lemma advance_ok n (s s' : state) :
  advance n s = (Ok tt, s') ->
  t s' = t s + Z.of_nat n /\
  exists evs, trace s' = trace s ++ evs /\ hook_calls evs = tick_calls (t s) n.
Proof.
  revert s. induction n as [|n IH]; intros s.
  - cbn. unfold ret. intros [= <-]. split; [lia|]. exists []. now rewrite app_nil_r.
  - change (advance (S n) s)
      with (bind (run_hooks 0 step_hooks) (fun _ => advance n) (set_step (t s + 1) s)).
    unfold bind at 1.
    destruct (run_hooks 0 step_hooks (set_step (t s + 1) s)) as [[[]|e] s1] eqn:Hh;
      [|discriminate].
    apply run_hooks_ok in Hh as (Ht1 & e1 & Htr1 & Hc1). cbn in Ht1, Htr1, Hc1.
    intros Hrest. apply IH in Hrest as (Ht & e2 & Htr2 & Hc2).
    split; [lia|]. exists (e1 ++ e2). split.
    + rewrite Htr2, Htr1. now rewrite app_assoc.
    + rewrite hook_calls_app, Hc1, Hc2, tick_calls_succ, Ht1. done.
Qed.

Lemma state_ext (s s' : state) :
  world s = world s' -> trace s = trace s' -> t s = t s' -> obss s = obss s' ->
  episode_r s = episode_r s' -> episode_idx s = episode_idx s' ->
  episode_len s = episode_len s' -> recent_returns s = recent_returns s' ->
  s = s'.
Proof. destruct s, s'. cbn. intros. now subst. Qed.

(** *** The transition *)

Lemma transition_run (s : state) acts w1 o rs dones w2 :
  batch_act_and_train agent (obss s) (world s) = (Ok acts, w1) ->
  step env acts w1 = (Ok (o, rs, dones), w2) ->
  match batch_observe_and_train agent o rs dones (resets_of s) w2 with
  | (Raise e, w3) =>
      exists s1, transition s = (Raise e, s1) /\
        trace s1 = trace s ++ [EvAct; EvStep; EvObserve rs dones (resets_of s)]
  | (Ok _, w3) =>
      match reset env (Some (logical_not (end_of s dones))) w3 with
      | (Raise e, w4) =>
          exists s2, transition s = (Raise e, s2) /\
            trace s2 = trace s ++ [EvAct; EvStep; EvObserve rs dones (resets_of s);
                                   EvReset (logical_not (end_of s dones))]
      | (Ok o', w4) =>
          transition s = (Ok tt, after_transition s rs dones o' w4)
      end
  end.
Proof.
  intros Hact Hstep. unfold transition, after_transition, end_of, resets_of.
  unfold bind, get, modify, call. simpl_state. rewrite Hact.
  simpl_state. rewrite Hstep. simpl_state.
  destruct (batch_observe_and_train agent o rs dones _ w2) as [[[]|e] w3].
  - simpl_state.
    destruct (reset env _ w3) as [[o'|e] w4].
    + f_equal. apply state_ext; simpl_state; try reflexivity.
      now rewrite <- !app_assoc.
    + eexists. split; [reflexivity|]. simpl_state. now rewrite <- !app_assoc.
  - eexists. split; [reflexivity|]. simpl_state. now rewrite <- !app_assoc.
Qed.

Lemma transition_ok (s s' : state) :
  transition s = (Ok tt, s') ->
  exists acts w1 o rs dones w2 w3 o' w4,
    batch_act_and_train agent (obss s) (world s) = (Ok acts, w1) /\
    step env acts w1 = (Ok (o, rs, dones), w2) /\
    batch_observe_and_train agent o rs dones (resets_of s) w2 = (Ok tt, w3) /\
    reset env (Some (logical_not (end_of s dones))) w3 = (Ok o', w4) /\
    s' = after_transition s rs dones o' w4.
Proof.
  intros Hs.
  destruct (batch_act_and_train agent (obss s) (world s)) as [[acts|e] w1] eqn:Hact.
  2:{ revert Hs. unfold transition, bind, get, modify, call. simpl_state.
      now rewrite Hact. }
  destruct (step env acts w1) as [[[[o rs] dones]|e] w2] eqn:Hstep.
  2:{ revert Hs. unfold transition, bind, get, modify, call. simpl_state.
      rewrite Hact. simpl_state. now rewrite Hstep. }
  pose proof (transition_run s _ _ _ _ _ _ Hact Hstep) as Hrun.
  destruct (batch_observe_and_train agent o rs dones _ w2) as [[[]|e] w3] eqn:Hobs.
  2:{ destruct Hrun as (s2 & Hrun & _). congruence. }
  destruct (reset env _ w3) as [[o'|e] w4] eqn:Hreset.
  - exists acts, w1, o, rs, dones, w2, w3, o', w4. repeat split; try done. congruence.
  - destruct Hrun as (s2 & Hrun & _). congruence.
Qed.


(** *** One iteration that returns *)

Lemma framed_run (P : event -> bool) (K : state -> state -> Prop)
    {A} (m : M A) s r s' :
  framed P K m -> m s = (r, s') -> follows P K s s'.
Proof. intros Hm Hs. specialize (Hm s). now rewrite Hs in Hm. Qed.

Lemma before_evaluate_ok (s s1 : state) :
  before_evaluate s = (Ok tt, s1) ->
  exists sa evs,
    transition s = (Ok tt, sa) /\ same_arrays sa s1 /\
    t s1 = t s + Z.of_nat N /\ trace s1 = trace sa ++ evs /\
    hook_calls evs = tick_calls (t s) N /\
    Forall (fun ev => late_event ev = true) evs.
Proof.
  unfold before_evaluate. unfold bind at 1.
  destruct (transition s) as [[[]|e] sa] eqn:Htr; [|discriminate].
  unfold bind at 1.
  destruct (advance N sa) as [[[]|e] sb] eqn:Hadv; [|discriminate].
  intros Hlog.
  assert (Hta : t sa = t s).
  { apply transition_ok in Htr as (? & ? & ? & ? & ? & ? & ? & ? & ? & _ & _ & _ & _ & ->).
    reflexivity. }
  pose proof (advance_ok _ _ _ Hadv) as (Htb & e1 & Htr1 & Hc1).
  pose proof (framed_run _ _ _ _ _ _ (framed_advance N) Hadv)
    as [(e1' & Htr1' & HF1) _ _ Hsame1].
  assert (e1' = e1) as -> by (apply (app_inv_head (trace sa)); congruence).
  pose proof (framed_run _ _ _ _ _ _ framed_log_progress Hlog)
    as [(e2 & Htr2 & HF2) _ _ [Hsame2 Ht2]].
  exists sa, (e1 ++ e2). split; [done|]. split; [|split; [|split; [|split]]].
  - eapply same_arrays_trans; eassumption.
  - lia.
  - rewrite Htr2, Htr1. now rewrite app_assoc.
  - rewrite hook_calls_app, Hc1, (hook_calls_report_events e2 HF2), app_nil_r.
    now rewrite Hta.
  - apply Forall_app. split; [done|].
    eapply Forall_impl; [exact HF2|]. apply report_is_late_event.
Qed.

Lemma loop_body_ok (s s' : state) b :
  loop_body s = (Ok b, s') ->
  exists sa evs,
    transition s = (Ok tt, sa) /\ same_arrays sa s' /\
    t s' = t s + Z.of_nat N /\ trace s' = trace sa ++ evs /\
    hook_calls evs = tick_calls (t s) N /\
    Forall (fun ev => late_event ev = true) evs.
Proof.
  unfold loop_body. unfold bind at 1.
  destruct (before_evaluate s) as [[[]|e] s1] eqn:Hbefore; [|discriminate].
  intros Hev.
  apply before_evaluate_ok in Hbefore as (sa & e1 & Htr & Hsame & Ht & Htrace & Hc & HF).
  pose proof (framed_run _ _ _ _ _ _ framed_evaluate Hev)
    as [(e2 & Htr2 & HF2) _ _ [Hsame2 Ht2]].
  exists sa, (e1 ++ e2). split; [done|]. split; [|split; [|split; [|split]]].
  - eapply same_arrays_trans; eassumption.
  - lia.
  - rewrite Htr2, Htrace. now rewrite app_assoc.
  - now rewrite hook_calls_app, Hc, (hook_calls_report_events e2 HF2), app_nil_r.
  - apply Forall_app. split; [done|].
    eapply Forall_impl; [exact HF2|]. apply report_is_late_event.
Qed.

(** The part of the trace added by an iteration that returns: one call
    of [env.step], and the hook calls of [N] ticks. *)
Lemma loop_body_trace (s s' : state) b :
  loop_body s = (Ok b, s') ->
  t s' = t s + Z.of_nat N /\
  exists evs, trace s' = trace s ++ evs /\
    Forall (fun ev => loop_event ev = true) evs /\
    env_steps evs = 1%nat /\ hook_calls evs = tick_calls (t s) N.
Proof.
  intros Hb. apply loop_body_ok in Hb as (sa & e1 & Htr & _ & Ht & Htrace & Hc & HF).
  split; [done|].
  apply transition_ok in Htr as (? & ? & ? & rs & dones & ? & ? & ? & ? & _ & _ & _ & _ & ->).
  unfold after_transition in Htrace. simpl_state.
  cbn [trace] in Htrace.
  eexists. split; [rewrite Htrace, <- app_assoc; reflexivity|].
  split; [|split].
  - apply Forall_app. split; [repeat constructor|].
    eapply Forall_impl; [exact HF|]. apply late_is_loop_event.
  - rewrite env_steps_app, (env_steps_late_events e1 HF). reflexivity.
  - rewrite hook_calls_app, Hc. reflexivity.
Qed.

(** *** Evaluation *)

Lemma evaluate_break (s : state) ev score w :
  evaluator = Some ev -> successful_score = Some score ->
  evaluate_if_necessary ev (t s) (np_sum (episode_idx s)) (world s) = (Ok true, w) ->
  score_ge (max_score ev w) score = true ->
  evaluate s
  = (Ok true, set_world w (log_event (EvEvaluate (t s) (np_sum (episode_idx s))) s)).
Proof.
  intros Hev Hsc Hran Hge. unfold evaluate. rewrite Hev, Hsc.
  unfold bind, get, call, ret. simpl_state. rewrite Hran. simpl_state.
  now rewrite Hge.
Qed.

Lemma evaluate_true (s s' : state) :
  evaluate s = (Ok true, s') ->
  exists ev score w,
    evaluator = Some ev /\ successful_score = Some score /\
    evaluate_if_necessary ev (t s) (np_sum (episode_idx s)) (world s) = (Ok true, w) /\
    score_ge (max_score ev w) score = true /\
    s' = set_world w (log_event (EvEvaluate (t s) (np_sum (episode_idx s))) s).
Proof.
  unfold evaluate. destruct evaluator as [ev|]; [|discriminate].
  unfold bind, get, call, ret. simpl_state.
  destruct (evaluate_if_necessary ev _ _ (world s)) as [[[|]|e] w] eqn:Hran;
    [|discriminate|discriminate].
  destruct successful_score as [score|]; [|discriminate].
  simpl_state. intros [= Hge <-]. exists ev, score, w. done.
Qed.


(** *** The loop *)

Local Hint Resolve I : frame.

Lemma any_state_follows_refl (s : state) : follows loop_event any_state s s.
Proof. now apply follows_refl. Qed.

Lemma any_state_follows_trans (s1 s2 s3 : state) :
  follows loop_event any_state s1 s2 -> follows loop_event any_state s2 s3 ->
  follows loop_event any_state s1 s3.
Proof. now apply follows_trans. Qed.

Lemma loop_follows fuel (s : state) r s' :
  loop fuel s = Some (r, s') -> follows loop_event any_state s s'.
Proof.
  revert s. induction fuel as [|fuel IH]; intros s; cbn.
  - destruct (t s <? steps); [discriminate|]. intros [= <- <-].
    apply any_state_follows_refl.
  - destruct (t s <? steps); [|intros [= <- <-]; apply any_state_follows_refl].
    destruct (loop_body s) as [[[|]|e] s1] eqn:Hb;
      pose proof (framed_run _ _ _ _ _ _ framed_loop_body Hb) as Hf.
    + now intros [= <- <-].
    + intros Hl. eapply any_state_follows_trans; [exact Hf|]. now apply IH.
    + now intros [= <- <-].
Qed.

Lemma iterations_spec k (s s' : state) :
  iterations k s = Some s' ->
  t s' = t s + Z.of_nat (k * N) /\
  ((0 < k)%nat -> t s' - Z.of_nat N < steps) /\
  exists evs, trace s' = trace s ++ evs /\
    Forall (fun ev => loop_event ev = true) evs /\
    env_steps evs = k /\ hook_calls evs = tick_calls (t s) (k * N).
Proof.
  revert s. induction k as [|k IH]; intros s.
  - cbn. intros [= <-]. split; [lia|]. split; [lia|].
    exists []. rewrite app_nil_r. repeat split. constructor.
  - cbn.
    destruct (Z.ltb_spec (t s) steps) as [Hlt|]; [|discriminate].
    destruct (loop_body s) as [[[|]|e] s1] eqn:Hb; try discriminate.
    intros Hk. apply IH in Hk as (Ht & Hlast & e2 & Htr2 & HF2 & Hs2 & Hc2).
    apply loop_body_trace in Hb as (Ht1 & e1 & Htr1 & HF1 & Hs1 & Hc1).
    split; [lia|]. split.
    { intros _. destruct k; [|lia]. cbn in Ht. lia. }
    exists (e1 ++ e2). repeat split.
    + rewrite Htr2, Htr1. now rewrite app_assoc.
    + apply Forall_app. now split.
    + rewrite env_steps_app. lia.
    + rewrite hook_calls_app, Hc1, Hc2, Ht1. symmetry. apply tick_calls_add.
Qed.

Lemma loop_of_iterations k fuel (s s1 : state) :
  iterations k s = Some s1 -> loop (k + fuel) s = loop fuel s1.
Proof.
  revert s. induction k as [|k IH]; intros s; cbn.
  - now intros [= <-].
  - destruct (t s <? steps); [|discriminate].
    destruct (loop_body s) as [[[|]|e] s2]; try discriminate. apply IH.
Qed.

(** How the loop is left: after some number of whole iterations, by the
    budget, by [break] in the next iteration, or by an exception raised
    in it. *)
Lemma loop_cases fuel (s : state) r s' :
  loop fuel s = Some (r, s') ->
  exists k s1, (k <= fuel)%nat /\ iterations k s = Some s1 /\
    match r with
    | Ok BudgetExhausted => s' = s1 /\ steps <= t s1
    | Ok SuccessThreshold => t s1 < steps /\ loop_body s1 = (Ok true, s')
    | Raise e => t s1 < steps /\ loop_body s1 = (Raise e, s')
    end.
Proof.
  revert s. induction fuel as [|fuel IH]; intros s; cbn.
  - destruct (Z.ltb_spec (t s) steps) as [Hlt|Hge]; [discriminate|].
    intros [= <- <-]. exists 0%nat, s. repeat split; [lia|lia].
  - destruct (Z.ltb_spec (t s) steps) as [Hlt|Hge].
    2:{ intros [= <- <-]. exists 0%nat, s. repeat split; [lia|lia]. }
    destruct (loop_body s) as [[[|]|e] s1] eqn:Hb.
    + intros [= <- <-]. exists 0%nat, s. repeat split; [lia|lia|done].
    + intros Hl. apply IH in Hl as (k & s2 & Hk & Hit & Hr).
      exists (S k), s2. split; [lia|]. split; [|].
      * cbn. destruct (Z.ltb_spec (t s) steps); [|lia]. now rewrite Hb.
      * exact Hr.
    + intros [= <- <-]. exists 0%nat, s. repeat split; [lia|lia|done].
Qed.

(** With at least one slot, the loop is left after at most
    [(steps - t) / N] iterations, rounded up. *)
Lemma loop_terminates fuel (s : state) :
  (1 <= N)%nat -> steps - t s <= Z.of_nat fuel * Z.of_nat N ->
  exists r, loop fuel s = Some r.
Proof.
  intros HN. revert s. induction fuel as [|fuel IH]; intros s Hfuel; cbn.
  - destruct (Z.ltb_spec (t s) steps) as [Hlt|Hge]; [lia|]. eauto.
  - destruct (Z.ltb_spec (t s) steps) as [Hlt|Hge]; [|eauto].
    destruct (loop_body s) as [[[|]|e] s1] eqn:Hb; [eauto| |eauto].
    apply IH. apply loop_body_trace in Hb as (Ht & _). lia.
Qed.


(** *** The handlers *)

Lemma on_finish_run (s1 : state) x :
  exists r w,
    save_agent (t s1) outdir "_finish" (world s1) = (r, w) /\
    on_finish x s1
    = (match r with Ok _ => Ok x | Raise e => Raise e end,
       set_world w (log_event (EvSave (t s1) "_finish") s1)).
Proof.
  unfold on_finish, bind, get, call, ret. simpl_state.
  destruct (save_agent (t s1) outdir "_finish" (world s1)) as [[[]|e] w];
    eexists _, _; split; reflexivity.
Qed.

(** Whatever the calls of the [except] clause do, [save_agent] is its
    first call and is called once, and the clause raises. *)
Lemma on_exception_trace e (s1 : state) :
  exists e' s2 evs,
    on_exception e s1 = (Raise e', s2) /\
    trace s2 = trace s1 ++ EvSave (t s1) "_except" :: evs /\
    saves evs = [].
Proof.
  unfold on_exception, bind, get, call, ret, raise. simpl_state.
  destruct (save_agent (t s1) outdir "_except" (world s1)) as [[[]|e1] w2].
  2:{ eexists _, _, []. split; [reflexivity|]. now simpl_state. }
  simpl_state. destruct (close env w2) as [[[]|e2] w3].
  2:{ eexists _, _, [EvEnvClose]. split; [reflexivity|]. simpl_state.
      now rewrite <- app_assoc. }
  destruct evaluator as [ev|].
  - simpl_state. destruct (evaluator_env_close ev w3) as [[[]|e3] w4];
      eexists _, _, [EvEnvClose; EvEvaluatorEnvClose];
      (split; [reflexivity|]); simpl_state; now rewrite <- !app_assoc.
  - eexists _, _, [EvEnvClose]. split; [reflexivity|]. simpl_state.
    now rewrite <- app_assoc.
Qed.

(** When the calls of the [except] clause return, the environment and
    the evaluator's environment are closed and the exception is raised
    again. *)
Lemma on_exception_run e (s1 : state) w2 w3 :
  save_agent (t s1) outdir "_except" (world s1) = (Ok tt, w2) ->
  close env w2 = (Ok tt, w3) ->
  (forall ev, evaluator = Some ev -> (evaluator_env_close ev w3).1 = Ok tt) ->
  exists s2,
    on_exception e s1 = (Raise e, s2) /\
    trace s2 = trace s1 ++ EvSave (t s1) "_except" :: closing_events.
Proof.
  intros Hsave Hclose Hev.
  unfold on_exception, closing_events, bind, get, call, ret, raise. simpl_state.
  rewrite Hsave. simpl_state. rewrite Hclose.
  destruct evaluator as [ev|].
  - simpl_state. specialize (Hev ev eq_refl).
    destruct (evaluator_env_close ev w3) as [[[]|e3] w4]; [|discriminate].
    eexists. split; [reflexivity|]. simpl_state. now rewrite <- !app_assoc.
  - eexists. split; [reflexivity|]. simpl_state. now rewrite <- !app_assoc.
Qed.

(** *** The whole function *)

(** The trace of the loop started by [train_agent_batch]. *)
Lemma loop_trace_init fuel w0 o r (s1 : state) :
  loop fuel (init_state w0 o) = Some (r, s1) ->
  step_offset <= t s1 /\
  exists evs, trace s1 = EvResetAll :: evs /\
    Forall (fun ev => loop_event ev = true) evs.
Proof.
  intros Hl. apply loop_follows in Hl as [(evs & Htr & HF) Ht _ _].
  split; [exact Ht|]. exists evs. split; [exact Htr|exact HF].
Qed.

Lemma train_agent_batch_run fuel w o w0 :
  reset env None w = (Ok o, w0) ->
  train_agent_batch fuel w
  = match guarded_loop fuel (init_state w0 o) with
    | None => None
    | Some (r, s) => Some (r, world s, trace s)
    end.
Proof. intros Hr. unfold train_agent_batch. now rewrite Hr. Qed.

(** A normal return: the reset returned, the loop was left without an
    exception, and [save_agent] returned. *)
Lemma train_agent_batch_ok fuel w x w' tr :
  train_agent_batch fuel w = Some (Ok x, w', tr) ->
  exists o w0 s1,
    reset env None w = (Ok o, w0) /\
    loop fuel (init_state w0 o) = Some (Ok x, s1) /\
    save_agent (t s1) outdir "_finish" (world s1) = (Ok tt, w') /\
    tr = trace s1 ++ [EvSave (t s1) "_finish"].
Proof.
  unfold train_agent_batch.
  destruct (reset env None w) as [[o|e] w0]; [|discriminate].
  unfold guarded_loop.
  destruct (loop fuel (init_state w0 o)) as [[[x1|e] s1]|] eqn:Hl; [| |discriminate].
  - destruct (on_finish_run s1 x1) as (r & w2 & Hsave & ->).
    destruct r as [[]|e]; [|discriminate]. simpl_state. intros [= <- <- <-].
    now exists o, w0, s1.
  - destruct (caught e); [|discriminate].
    destruct (on_exception_trace e s1) as (e' & s2 & evs & -> & _). discriminate.
Qed.

(** The function returns or raises whenever the loop is left. *)
Lemma train_agent_batch_terminates fuel w :
  (1 <= N)%nat -> steps - step_offset <= Z.of_nat fuel * Z.of_nat N ->
  exists res, train_agent_batch fuel w = Some res.
Proof.
  intros HN Hfuel. unfold train_agent_batch.
  destruct (reset env None w) as [[o|e] w0]; [|eauto].
  destruct (loop_terminates fuel (init_state w0 o) HN) as [[r s1] Hl]; [exact Hfuel|].
  unfold guarded_loop. rewrite Hl.
  destruct r as [x|e].
  - destruct (on_finish x s1) as [r s2]. eauto.
  - destruct (caught e); [|eauto]. destruct (on_exception e s1) as [r s2]. eauto.
Qed.


(** *** The exit paths *)

(** C10.  When [train_agent_batch] returns normally, whether the loop
    was left because the budget was used up or by the success
    threshold, the function has called neither [env.close()] nor
    [evaluator.env.close()]: the [else] clause only saves the agent. *)
Theorem normal_return_closes_nothing fuel w x w' tr :
  train_agent_batch fuel w = Some (Ok x, w', tr) ->
  env_closes tr = 0%nat /\ evaluator_env_closes tr = 0%nat.
Proof.
  intros Hrun.
  apply train_agent_batch_ok in Hrun as (o & w0 & s1 & _ & Hl & _ & ->).
  apply loop_trace_init in Hl as (_ & evs & -> & HF).
  change (EvResetAll :: evs) with ([EvResetAll] ++ evs).
  rewrite !env_closes_app, !evaluator_env_closes_app.
  rewrite (env_closes_loop_events evs HF), (evaluator_env_closes_loop_events evs HF).
  split; reflexivity.
Qed.

(** C1, amended.  Let an exception that is an instance of [Exception]
    or of [KeyboardInterrupt] leave the loop, raised by any call made
    in the loop body, with the step counter at [t s1].  Then the
    function raises, and [save_agent] is called exactly once in the
    whole run, with that step counter and the suffix [_except], as the
    first call of the handler.  What follows depends on the calls of
    the handler, in their order:
    - when [save_agent] raises, its exception is the one that reaches
      the caller and neither environment is closed;
    - when [save_agent] returns and [env.close()] raises, the exception
      of [env.close()] reaches the caller and the evaluator's
      environment is not closed;
    - when both return and there is no evaluator, the environment has
      been closed once and the exception that left the loop is raised
      again;
    - when both return and there is an evaluator,
      [evaluator.env.close()] is called once after [env.close()], and
      the caller gets the exception that left the loop when it returns,
      its own exception when it raises. *)
Theorem exception_checkpoint fuel w o w0 e (s1 : state) :
  reset env None w = (Ok o, w0) ->
  loop fuel (init_state w0 o) = Some (Raise e, s1) ->
  exn_cls e = ExceptionCls \/ exn_cls e = KeyboardInterruptCls ->
  exists e' w' tr,
    train_agent_batch fuel w = Some (Raise e', w', tr) /\
    saves tr = [(t s1, "_except")] /\
    match save_agent (t s1) outdir "_except" (world s1) with
    | (Raise e1, w2) =>
        e' = e1 /\ w' = w2 /\
        tr = trace s1 ++ [EvSave (t s1) "_except"] /\
        env_closes tr = 0%nat /\ evaluator_env_closes tr = 0%nat
    | (Ok _, w2) =>
        match close env w2 with
        | (Raise e2, w3) =>
            e' = e2 /\ w' = w3 /\
            tr = trace s1 ++ [EvSave (t s1) "_except"; EvEnvClose] /\
            env_closes tr = 1%nat /\ evaluator_env_closes tr = 0%nat
        | (Ok _, w3) =>
            match evaluator with
            | None =>
                e' = e /\ w' = w3 /\
                tr = trace s1 ++ [EvSave (t s1) "_except"; EvEnvClose] /\
                env_closes tr = 1%nat /\ evaluator_env_closes tr = 0%nat
            | Some ev =>
                match evaluator_env_close ev w3 with
                | (r, w4) =>
                    e' = match r with Ok _ => e | Raise e3 => e3 end /\ w' = w4 /\
                    tr = trace s1 ++ [EvSave (t s1) "_except"; EvEnvClose;
                                      EvEvaluatorEnvClose] /\
                    env_closes tr = 1%nat /\ evaluator_env_closes tr = 1%nat
                end
            end
        end
    end.
Proof.
  intros Hreset Hl Hcls.
  assert (Hcaught : caught e = true).
  { unfold caught. destruct Hcls as [-> | ->]; reflexivity. }
  rewrite (train_agent_batch_run fuel w o w0 Hreset).
  unfold guarded_loop. rewrite Hl, Hcaught.
  pose proof (loop_trace_init _ _ _ _ _ Hl) as (_ & evs & Htr1 & HF).
  assert (Hs : saves (trace s1) = []).
  { rewrite Htr1. change (EvResetAll :: evs) with ([EvResetAll] ++ evs).
    now rewrite saves_app, (saves_loop_events evs HF). }
  assert (Hc : env_closes (trace s1) = 0%nat).
  { rewrite Htr1. change (EvResetAll :: evs) with ([EvResetAll] ++ evs).
    now rewrite env_closes_app, (env_closes_loop_events evs HF). }
  assert (Hec : evaluator_env_closes (trace s1) = 0%nat).
  { rewrite Htr1. change (EvResetAll :: evs) with ([EvResetAll] ++ evs).
    now rewrite evaluator_env_closes_app, (evaluator_env_closes_loop_events evs HF). }
  unfold on_exception, bind, get, call, ret, raise. simpl_state.
  destruct (save_agent (t s1) outdir "_except" (world s1)) as [[[]|e1] w2].
  2:{ eexists _, _, _. split; [reflexivity|]. simpl_state.
      rewrite saves_app, env_closes_app, evaluator_env_closes_app, Hs, Hc, Hec.
      repeat split. }
  simpl_state. destruct (close env w2) as [[[]|e2] w3].
  2:{ eexists _, _, _. split; [reflexivity|]. simpl_state.
      rewrite <- !app_assoc. cbn [app].
      rewrite saves_app, env_closes_app, evaluator_env_closes_app, Hs, Hc, Hec.
      repeat split. }
  destruct evaluator as [ev|].
  - simpl_state. destruct (evaluator_env_close ev w3) as [[[]|e3] w4];
      (eexists _, _, _; split; [reflexivity|]); simpl_state;
      rewrite <- !app_assoc; cbn [app];
      rewrite saves_app, env_closes_app, evaluator_env_closes_app, Hs, Hc, Hec;
      repeat split.
  - eexists _, _, _. split; [reflexivity|]. simpl_state.
    rewrite <- !app_assoc. cbn [app].
    rewrite saves_app, env_closes_app, evaluator_env_closes_app, Hs, Hc, Hec.
    repeat split.
Qed.


(** C2, amended.  A run that returns normally, whichever way the loop
    was left, has called [save_agent] exactly once, as its last call
    and with the suffix [_finish] (so never with [_except]).  And when
    an evaluation is run in some iteration and the best score then
    meets [successful_score], the loop is left in that very iteration,
    with the step counter that was given to that evaluation (which is
    below the budget unless that iteration was the last one anyway): no
    further environment step is made and the checkpoint is the
    [_finish] one. *)
Theorem finish_checkpoint :
  (forall fuel w x w' tr,
     train_agent_batch fuel w = Some (Ok x, w', tr) ->
     exists v, saves tr = [(v, "_finish")] /\ last tr = Some (EvSave v "_finish"))
  /\
  (forall fuel w o w0 k (s s1 : state) ev score w2,
     reset env None w = (Ok o, w0) ->
     evaluator = Some ev -> successful_score = Some score ->
     iterations k (init_state w0 o) = Some s ->
     t s < steps ->
     before_evaluate s = (Ok tt, s1) ->
     evaluate_if_necessary ev (t s1) (np_sum (episode_idx s1)) (world s1)
     = (Ok true, w2) ->
     score_ge (max_score ev w2) score = true ->
     (k < fuel)%nat ->
     t s1 = step_offset + Z.of_nat (S k * N) /\
     exists r w' tr,
       train_agent_batch fuel w = Some (r, w', tr) /\
       env_steps tr = S k /\
       saves tr = [(t s1, "_finish")] /\
       forall w3,
         save_agent (t s1) outdir "_finish" w2 = (Ok tt, w3) ->
         r = Ok SuccessThreshold /\ w' = w3).
Proof.
  split.
  - intros fuel w x w' tr Hrun.
    apply train_agent_batch_ok in Hrun as (o & w0 & s1 & _ & Hl & _ & ->).
    apply loop_trace_init in Hl as (_ & evs & -> & HF).
    exists (t s1). split; [|apply last_snoc].
    change (EvResetAll :: evs) with ([EvResetAll] ++ evs).
    rewrite !saves_app, (saves_loop_events evs HF). reflexivity.
  - intros fuel w o w0 k s s1 ev score w2 Hreset Hev Hsc Hit Hlt Hbefore Hran Hge Hfuel.
    pose proof (evaluate_break s1 ev score w2 Hev Hsc Hran Hge) as Heval.
    set (s2 := set_world w2 (log_event (EvEvaluate (t s1) (np_sum (episode_idx s1))) s1))
      in Heval.
    assert (Hbody : loop_body s = (Ok true, s2)).
    { unfold loop_body. unfold bind at 1. now rewrite Hbefore. }
    assert (Hloop : loop fuel (init_state w0 o) = Some (Ok SuccessThreshold, s2)).
    { replace fuel with (k + S (fuel - S k))%nat by lia.
      rewrite (loop_of_iterations _ _ _ _ Hit). cbn.
      destruct (Z.ltb_spec (t s) steps); [|lia]. now rewrite Hbody. }
    pose proof (iterations_spec _ _ _ Hit) as (Ht & _ & e1 & Htr1 & HF1 & Hs1 & _).
    pose proof (loop_body_trace _ _ _ Hbody) as (Ht2 & e2 & Htr2 & HF2 & Hs2 & _).
    assert (Hts : t s2 = t s1) by reflexivity.
    split.
    { rewrite <- Hts, Ht2, Ht. cbn [init_state t]. lia. }
    rewrite (train_agent_batch_run fuel w o w0 Hreset).
    unfold guarded_loop. rewrite Hloop.
    destruct (on_finish_run s2 SuccessThreshold) as (r & w3 & Hsave & ->).
    eexists _, _, _. split; [reflexivity|]. simpl_state.
    rewrite Htr2, Htr1. cbn [init_state trace].
    split; [|split].
    + rewrite !env_steps_app, Hs1, Hs2. cbn. lia.
    + rewrite !saves_app, (saves_loop_events e1 HF1), (saves_loop_events e2 HF2).
      reflexivity.
    + intros w3' Hsave'. change (world s2) with w2 in Hsave.
      rewrite Hts in Hsave. rewrite Hsave' in Hsave. injection Hsave as <- <-.
      split; reflexivity.
Qed.


(** *** The step counter and the hooks over a whole run *)

Lemma hook_args_of_calls k (tr : list event) :
  hook_args k tr
  = omap (fun c : nat * Z => if (c.1 =? k)%nat then Some c.2 else None)
         (hook_calls tr).
Proof.
  induction tr as [|ev tr IH]; [reflexivity|].
  destruct ev; try exact IH.
  change (hook_calls (EvHook k0 t0 :: tr)) with ((k0, t0) :: hook_calls tr).
  cbn. destruct (k0 =? k)%nat; cbn; now rewrite <- IH.
Qed.

Lemma omap_one_tick k v h i :
  omap (fun c : nat * Z => if (c.1 =? k)%nat then Some c.2 else None)
       (map (fun j => (j, v)) (seq i h))
  = if decide (i <= k < i + h)%nat then [v] else [].
Proof.
  revert i. induction h as [|h IH]; intros i.
  - cbn. destruct (decide _); [lia|reflexivity].
  - cbn [seq map]. cbn [omap list_omap]. cbn [fst snd]. rewrite IH.
    destruct (Nat.eqb_spec i k) as [->|Hne]; cbn;
      repeat case_decide; try lia; reflexivity.
Qed.

(** The steps given to one hook over [n] ticks after [t0]. *)
Lemma hook_args_ticks k t0 n :
  (k < length step_hooks)%nat ->
  omap (fun c : nat * Z => if (c.1 =? k)%nat then Some c.2 else None)
       (tick_calls t0 n)
  = map (fun j => t0 + Z.of_nat j) (seq 1 n).
Proof.
  intros Hk. revert t0. induction n as [|n IH]; intros t0; [reflexivity|].
  rewrite tick_calls_succ, omap_app, omap_one_tick, IH.
  destruct (decide _); [|lia].
  cbn [seq map]. rewrite <- (seq_shift n 1), map_map. cbn [app]. f_equal.
  apply map_ext. intros j. lia.
Qed.

(** A run that returns after the budget is used up: some number [k] of
    whole iterations, each with one environment step and [N] ticks of
    the step counter; [k] is the least number of iterations that
    reaches the budget. *)
Lemma train_agent_batch_budget fuel w w' tr :
  train_agent_batch fuel w = Some (Ok BudgetExhausted, w', tr) ->
  exists k evs,
    tr = EvResetAll :: evs ++ [EvSave (step_offset + Z.of_nat (k * N)) "_finish"] /\
    Forall (fun ev => loop_event ev = true) evs /\
    env_steps evs = k /\
    hook_calls evs = tick_calls step_offset (k * N) /\
    steps <= step_offset + Z.of_nat (k * N) /\
    ((0 < k)%nat -> step_offset + Z.of_nat (k * N) - Z.of_nat N < steps).
Proof.
  intros Hrun.
  apply train_agent_batch_ok in Hrun as (o & w0 & s1 & _ & Hl & _ & ->).
  apply loop_cases in Hl as (k & s2 & _ & Hit & <- & Hge).
  apply iterations_spec in Hit as (Ht & Hlast & evs & Htr & HF & Hs & Hc).
  cbn [init_state t trace] in Ht, Htr, Hc.
  exists k, evs. rewrite Htr, Ht. repeat split; try done.
  - lia.
  - intros Hk. specialize (Hlast Hk). lia.
Qed.

Lemma saves_of_run (evs : list event) v sfx :
  Forall (fun ev => loop_event ev = true) evs ->
  saves (EvResetAll :: evs ++ [EvSave v sfx]) = [(v, sfx)].
Proof.
  intros HF. change (EvResetAll :: evs ++ [EvSave v sfx])
    with ([EvResetAll] ++ evs ++ [EvSave v sfx]).
  now rewrite !saves_app, (saves_loop_events evs HF).
Qed.


Lemma ticks_increasing t0 a n :
  StronglySorted Z.lt (map (fun j => t0 + Z.of_nat j) (seq a n)).
Proof.
  revert a. induction n as [|n IH]; intros a; cbn; constructor; [apply IH|].
  apply List.Forall_forall. intros v Hv. apply in_map_iff in Hv as (j & <- & Hj).
  apply in_seq in Hj. lia.
Qed.

(** C3, amended.  The loop runs from [step_offset] up to [steps], so the
    number of steps it makes is [steps - step_offset].  With at least
    one slot, when that number is [q * N] for some [q >= 0], the run
    returns or raises within [q] iterations; and a run that returns
    without the early exit has made exactly [q] batch iterations and
    leaves the step counter at [step_offset + q * N], which is
    [steps]. *)
Theorem budget_iterations q fuel w :
  (1 <= N)%nat -> 0 <= q -> steps - step_offset = q * Z.of_nat N ->
  q <= Z.of_nat fuel ->
  (exists res, train_agent_batch fuel w = Some res) /\
  (forall w' tr,
     train_agent_batch fuel w = Some (Ok BudgetExhausted, w', tr) ->
     env_steps tr = Z.to_nat q /\
     saves tr = [(step_offset + q * Z.of_nat N, "_finish")] /\
     step_offset + q * Z.of_nat N = steps).
Proof.
  intros HN Hq Hsteps Hfuel. split.
  - apply train_agent_batch_terminates; [exact HN|]. nia.
  - intros w' tr Hrun.
    apply train_agent_batch_budget in Hrun as (k & evs & -> & HF & Hs & _ & Hge & Hlast).
    assert (Hk : Z.of_nat k = q).
    { destruct k as [|k]; [nia|]. specialize (Hlast ltac:(lia)). nia. }
    split; [|split; [|lia]].
    + change (EvResetAll :: evs ++ [EvSave (step_offset + Z.of_nat (k * N)) "_finish"])
        with ([EvResetAll] ++ evs ++ [EvSave (step_offset + Z.of_nat (k * N)) "_finish"]).
      rewrite !env_steps_app, Hs. cbn. lia.
    + rewrite (saves_of_run evs _ _ HF). do 2 f_equal. lia.
Qed.

(** C9.  With at least one slot, when [steps - step_offset] is positive
    and not a multiple of [N], the run returns or raises, and a run that
    returns without the early exit leaves the step counter above
    [steps]: at the least value that is at least [steps] and congruent
    to [step_offset] modulo [N].  In the last iteration every hook is
    called with each of the steps above [steps] up to that value. *)
Theorem budget_overshoot :
  0 < steps - step_offset ->
  (steps - step_offset) mod Z.of_nat N <> 0 ->
  (forall fuel w,
     (1 <= N)%nat -> steps - step_offset <= Z.of_nat fuel * Z.of_nat N ->
     exists res, train_agent_batch fuel w = Some res) /\
  (forall fuel w w' tr,
     train_agent_batch fuel w = Some (Ok BudgetExhausted, w', tr) ->
     exists t_end,
       saves tr = [(t_end, "_finish")] /\
       steps < t_end /\ t_end - Z.of_nat N < steps /\
       (t_end - step_offset) mod Z.of_nat N = 0 /\
       (forall t', steps <= t' -> (t' - step_offset) mod Z.of_nat N = 0 ->
                   t_end <= t') /\
       (forall k v, (k < length step_hooks)%nat -> steps < v <= t_end ->
                    In v (hook_args k tr))).
Proof.
  intros Hpos Hmod. split.
  - intros fuel w HN Hfuel. now apply train_agent_batch_terminates.
  - intros fuel w w' tr Hrun.
    apply train_agent_batch_budget in Hrun as (k & evs & -> & HF & Hs & Hc & Hge & Hlast).
    assert (Hk : (0 < k)%nat) by (destruct k; [cbn in Hge; lia|lia]).
    assert (HN : (1 <= N)%nat) by (destruct N; [lia|lia]).
    specialize (Hlast Hk).
    exists (step_offset + Z.of_nat (k * N)).
    split; [apply (saves_of_run evs _ _ HF)|].
    assert (Hne : steps <> step_offset + Z.of_nat (k * N)).
    { intros ->. apply Hmod.
      replace (step_offset + Z.of_nat (k * N) - step_offset)
        with (Z.of_nat k * Z.of_nat N) by lia.
      apply Z.mod_mul. lia. }
    split; [lia|]. split; [exact Hlast|]. split; [|split].
    + replace (step_offset + Z.of_nat (k * N) - step_offset)
        with (Z.of_nat k * Z.of_nat N) by lia.
      apply Z.mod_mul. lia.
    + intros t' Ht' Hmod'.
      apply Z.mod_divide in Hmod' as [j Hj]; [|lia].
      rewrite Nat2Z.inj_mul in *.
      assert (Z.of_nat k - 1 < j) by nia. nia.
    + intros i v Hi Hv.
      change (EvResetAll :: evs ++ [EvSave (step_offset + Z.of_nat (k * N)) "_finish"])
        with ([EvResetAll] ++ evs ++ [EvSave (step_offset + Z.of_nat (k * N)) "_finish"]).
      rewrite !hook_args_app. apply in_or_app. right. apply in_or_app. left.
      rewrite hook_args_of_calls, Hc, (hook_args_ticks _ _ _ Hi).
      apply in_map_iff. exists (Z.to_nat (v - step_offset)). split; [lia|].
      apply in_seq. lia.
Qed.

(** C4, amended.  An iteration that returns advances the step counter
    by exactly [N]; for each of these [N] unit increments, in order,
    every hook is called once, in the order of the list, with the step
    counter as it is after that increment.  Over a run that returns
    without the early exit, every hook is called once for each step
    from [step_offset + 1] to the final step counter, in increasing
    order: that is [steps - step_offset] calls when this number is a
    non-negative multiple of [N]. *)
Theorem hooks_per_tick :
  (forall (s s' : state) b,
     loop_body s = (Ok b, s') ->
     t s' = t s + Z.of_nat N /\
     exists evs, trace s' = trace s ++ evs /\
                 hook_calls evs = tick_calls (t s) N)
  /\
  (forall fuel w w' tr,
     train_agent_batch fuel w = Some (Ok BudgetExhausted, w', tr) ->
     exists n : nat,
       saves tr = [(step_offset + Z.of_nat n, "_finish")] /\
       hook_calls tr = tick_calls step_offset n /\
       (forall k, (k < length step_hooks)%nat ->
          hook_args k tr = map (fun j => step_offset + Z.of_nat j) (seq 1 n) /\
          length (hook_args k tr) = n /\
          StronglySorted Z.lt (hook_args k tr)) /\
       (forall q, 0 <= q -> steps - step_offset = q * Z.of_nat N ->
                  Z.of_nat n = steps - step_offset)).
Proof.
  split.
  - intros s s' b Hb.
    apply loop_body_trace in Hb as (Ht & evs & Htr & _ & _ & Hc). eauto.
  - intros fuel w w' tr Hrun.
    apply train_agent_batch_budget in Hrun as (k & evs & -> & HF & Hs & Hc & Hge & Hlast).
    exists (k * N)%nat.
    assert (Hcalls :
      hook_calls (EvResetAll :: evs ++ [EvSave (step_offset + Z.of_nat (k * N)) "_finish"])
      = tick_calls step_offset (k * N)).
    { change (EvResetAll :: evs ++ [EvSave (step_offset + Z.of_nat (k * N)) "_finish"])
        with ([EvResetAll] ++ evs ++ [EvSave (step_offset + Z.of_nat (k * N)) "_finish"]).
      rewrite !hook_calls_app, Hc. cbn. now rewrite app_nil_r. }
    split; [apply (saves_of_run evs _ _ HF)|]. split; [exact Hcalls|]. split.
    + intros i Hi. rewrite hook_args_of_calls, Hcalls, (hook_args_ticks _ _ _ Hi).
      split; [reflexivity|]. split; [|apply ticks_increasing].
      now rewrite length_map, length_seq.
    + intros q Hq Hsteps.
      assert (HN : (N = 0 \/ 1 <= N)%nat) by lia.
      destruct HN as [->|HN]; [lia|].
      destruct k as [|k]; [nia|]. specialize (Hlast ltac:(lia)).
      assert (Z.of_nat (S k) = q) by nia. nia.
Qed.


(** *** The episode bookkeeping *)

Lemma lookup_truncation_mask (len : vec Z N) (i : fin N) :
  truncation_mask len !!! i
  = match max_episode_len with Some m => len !!! i =? m | None => false end.
Proof.
  unfold truncation_mask. destruct max_episode_len as [m|].
  - apply lookup_array_eq.
  - apply vlookup_replicate.
Qed.

(** After the transition, the rest of the iteration only calls hooks,
    the logger and the evaluator. *)
Lemma loop_body_after_transition (s sa : state) :
  transition s = (Ok tt, sa) ->
  follows late_event same_arrays sa (loop_body s).2.
Proof.
  intros Htr. unfold loop_body, before_evaluate.
  unfold bind at 1. unfold bind at 1. rewrite Htr.
  assert (Hrest : framed_late
            (bind (bind (advance N) (fun _ => log_progress)) (fun _ => evaluate))).
  { apply framed_bind; [eauto with frame| |].
    - apply framed_bind; [eauto with frame|apply framed_advance|].
      intros _. apply framed_report_late, framed_log_progress.
    - intros _. apply framed_report_late, framed_evaluate. }
  specialize (Hrest sa). unfold bind in Hrest |- *.
  destruct (advance N sa) as [[[]|e] sb]; [|exact Hrest].
  destruct (log_progress sb) as [[[]|e] sc]; exact Hrest.
Qed.

Lemma loop_body_raise_in_transition (s s2 : state) e :
  transition s = (Raise e, s2) -> loop_body s = (Raise e, s2).
Proof.
  intros Htr. unfold loop_body, before_evaluate.
  unfold bind at 1. unfold bind at 1. now rewrite Htr.
Qed.

(** The arrays at the start of the next iteration are those left by
    the transition. *)
Lemma loop_body_arrays (s s' : state) b acts w1 o rs dones w2 :
  batch_act_and_train agent (obss s) (world s) = (Ok acts, w1) ->
  step env acts w1 = (Ok (o, rs, dones), w2) ->
  loop_body s = (Ok b, s') ->
  exists o' w4 evs,
    same_arrays (after_transition s rs dones o' w4) s' /\
    trace s' = trace (after_transition s rs dones o' w4) ++ evs.
Proof.
  intros Hact Hstep Hb.
  apply loop_body_ok in Hb as (sa & evs & Htr & Hsame & _ & Htrace & _).
  apply transition_ok in Htr
    as (acts' & w1' & o1 & rs' & dones' & w2' & w3 & o' & w4 & Hact' & Hstep' & _ & _ & ->).
  rewrite Hact in Hact'. injection Hact' as <- <-.
  rewrite Hstep in Hstep'. injection Hstep' as <- <- <- <-.
  eauto.
Qed.

(** The end mask, slot by slot: the episode of a slot ends when
    [env.step] says so or when its step count, just incremented, is
    [max_episode_len]. *)
Lemma lookup_end_of (s : state) (dones : vec bool N) (i : fin N) :
  end_of s dones !!! i
  = dones !!! i || match max_episode_len with
                   | Some m => wrap_int32 (episode_len s !!! i + 1) =? m
                   | None => false
                   end.
Proof.
  unfold end_of, resets_of.
  rewrite lookup_logical_or, lookup_truncation_mask, lookup_int32_incr.
  apply orb_comm.
Qed.

(** The arrays and the window after an iteration that returns, slot by
    slot, from what [env.step] returned. *)
Lemma loop_body_bookkeeping (s s' : state) b acts w1 o rs dones w2 :
  batch_act_and_train agent (obss s) (world s) = (Ok acts, w1) ->
  step env acts w1 = (Ok (o, rs, dones), w2) ->
  loop_body s = (Ok b, s') ->
  let ended (i : fin N) :=
    dones !!! i || match max_episode_len with
                   | Some m => wrap_int32 (episode_len s !!! i + 1) =? m
                   | None => false
                   end in
  recent_returns s'
  = deque_extend return_window_size (recent_returns s)
      (omap (fun i : fin N =>
               if ended i then Some (radd (episode_r s !!! i) (rs !!! i)) else None)
            (fin_enum N)) /\
  forall i : fin N,
    episode_idx s' !!! i = wrap_int32 (episode_idx s !!! i + Z.b2z (ended i)) /\
    episode_r s' !!! i
    = (if ended i then rzero else radd (episode_r s !!! i) (rs !!! i)) /\
    episode_len s' !!! i
    = (if ended i then 0 else wrap_int32 (episode_len s !!! i + 1)).
Proof.
  intros Hact Hstep Hb ended.
  destruct (loop_body_arrays _ _ _ _ _ _ _ _ _ Hact Hstep Hb)
    as (o' & w4 & evs & (Hr & Hidx & Hlen & Hwin & _) & _).
  rewrite Hr, Hidx, Hlen, Hwin. unfold after_transition.
  cbn [episode_r episode_idx episode_len recent_returns].
  split.
  - f_equal. rewrite mask_select_slots. apply omap_slots_ext. intros i.
    rewrite lookup_end_of. fold (ended i).
    unfold accumulate. now rewrite vlookup_zip_with.
  - intros i.
    rewrite !lookup_mask_assign, lookup_int32_add_mask, lookup_int32_incr.
    rewrite lookup_end_of. fold (ended i).
    unfold accumulate. rewrite vlookup_zip_with. repeat split.
Qed.

(** C5.  The entry of the truncation mask for a slot is true exactly
    when [max_episode_len] is set and the step count of the slot is
    equal to it.  In an iteration the mask is computed from the step
    counts just incremented and given to the agent; a slot whose entry
    is true ends its episode in that iteration and starts the next
    iteration with step count 0, so that the mask cannot be true again
    for the slot before its count has been reset.  With a limit within
    [1, INT32_MAX], the step counts between iterations stay below the
    limit. *)
Theorem truncation_exact :
  (forall (len : vec Z N) (i : fin N),
     truncation_mask len !!! i = true <->
     exists m, max_episode_len = Some m /\ len !!! i = m)
  /\
  (forall (s s' : state) b,
     loop_body s = (Ok b, s') ->
     exists rs dones evs,
       trace s' = trace s ++ EvAct :: EvStep
                    :: EvObserve rs dones (truncation_mask (int32_incr (episode_len s)))
                    :: evs /\
       forall i : fin N,
         truncation_mask (int32_incr (episode_len s)) !!! i = true ->
         end_of s dones !!! i = true /\ episode_len s' !!! i = 0)
  /\
  (forall m (s s' : state) b,
     max_episode_len = Some m -> 1 <= m <= INT32_MAX ->
     loop_body s = (Ok b, s') ->
     (forall i : fin N, 0 <= episode_len s !!! i < m) ->
     (forall i : fin N, 0 <= episode_len s' !!! i < m)).
Proof.
  split; [|split].
  - intros len i. rewrite lookup_truncation_mask.
    destruct max_episode_len as [m|].
    + rewrite Z.eqb_eq. split; [eauto|]. now intros (m' & [= <-] & ->).
    + split; [discriminate|]. now intros (m' & [=] & _).
  - intros s s' b Hb.
    apply loop_body_ok in Hb as (sa & evs & Htr & Hsame & _ & Htrace & _).
    apply transition_ok in Htr
      as (acts & w1 & o1 & rs & dones & w2 & w3 & o' & w4 & _ & _ & _ & _ & ->).
    destruct Hsame as (_ & _ & Hlen & _).
    exists rs, dones. eexists. split.
    { rewrite Htrace. unfold after_transition. cbn [trace].
      rewrite <- app_assoc. reflexivity. }
    intros i Hi. rewrite Hlen. unfold after_transition. cbn [episode_len].
    rewrite lookup_mask_assign. unfold end_of, resets_of.
    rewrite lookup_logical_or, Hi. split; reflexivity.
  - intros m s s' b Hmax Hm Hb Hinv i.
    apply loop_body_ok in Hb as (sa & evs & Htr & Hsame & _ & _ & _).
    apply transition_ok in Htr
      as (acts & w1 & o1 & rs & dones & w2 & w3 & o' & w4 & _ & _ & _ & _ & ->).
    destruct Hsame as (_ & _ & Hlen & _).
    rewrite Hlen. unfold after_transition. cbn [episode_len].
    rewrite lookup_mask_assign. unfold end_of, resets_of.
    rewrite lookup_logical_or, lookup_truncation_mask, Hmax, lookup_int32_incr.
    specialize (Hinv i). unfold INT32_MAX in Hm.
    rewrite wrap_int32_id by (unfold int32_range, INT32_MIN, INT32_MAX; lia).
    destruct (Z.eqb_spec (episode_len s !!! i + 1) m); cbn; [lia|].
    destruct (dones !!! i); lia.
Qed.


(** *** The window of recent returns *)

Lemma iterations_follows k (s s' : state) :
  iterations k s = Some s' -> follows loop_event any_state s s'.
Proof.
  revert s. induction k as [|k IH]; intros s; cbn.
  - intros [= <-]. apply any_state_follows_refl.
  - destruct (t s <? steps); [|discriminate].
    destruct (loop_body s) as [[[|]|e] s1] eqn:Hb; try discriminate.
    intros Hk. eapply any_state_follows_trans; [|apply IH, Hk].
    exact (framed_run _ _ _ _ _ _ framed_loop_body Hb).
Qed.

(** C7.  A push on the window keeps its length within
    [return_window_size]; a push on a full window drops the oldest
    entry and adds the new one at the end; with size 3, pushing 1, 2, 3,
    4 leaves 2, 3, 4.  In a run the window has at most
    [return_window_size] entries between any two iterations and when
    the loop is left, by a normal exit or by an exception. *)
Theorem return_window_bounded :
  (forall (d xs : list R),
     (length d <= return_window_size)%nat ->
     (length (deque_extend return_window_size d xs) <= return_window_size)%nat)
  /\
  (forall (d : list R) x,
     length d = return_window_size ->
     deque_append return_window_size d x = tail (d ++ [x]) /\
     (forall y d', d = y :: d' -> deque_append return_window_size d x = d' ++ [x]))
  /\
  deque_extend 3 [] [1; 2; 3; 4] = [2; 3; 4]
  /\
  (forall w0 o k (s : state),
     iterations k (init_state w0 o) = Some s ->
     (length (recent_returns s) <= return_window_size)%nat)
  /\
  (forall w0 o fuel r (s : state),
     loop fuel (init_state w0 o) = Some (r, s) ->
     (length (recent_returns s) <= return_window_size)%nat).
Proof.
  split; [|split; [|split; [|split]]].
  - intros d xs. apply deque_extend_length.
  - intros d x Hd. split; [now apply deque_append_full|].
    intros y d' ->. now apply deque_append_evict.
  - reflexivity.
  - intros w0 o k s Hit. apply iterations_follows in Hit as [_ _ Hw _].
    apply Hw. cbn. lia.
  - intros w0 o fuel r s Hl. apply loop_follows in Hl as [_ _ Hw _].
    apply Hw. cbn. lia.
Qed.

(** *** The masked reset *)

(** C8.  In an iteration in which the agent has observed the
    transition, the loop calls the masked reset of the environment
    exactly once, whatever the later calls of the iteration do, and the
    mask it passes is false exactly at the slots whose episode ended in
    this iteration: those for which [env.step] returned done or whose
    step count, incremented for this step, is [max_episode_len].  When
    the environment resets as the spec says (a slot whose mask entry is
    true keeps its state, the others are restarted), the state of the
    environment after that call is, slot by slot, the restarted state
    for the slots that ended and the state it had before the call for
    the others. *)
Theorem reset_mask_is_not_end :
  (forall (s : state) acts w1 o rs dones w2 w3,
     batch_act_and_train agent (obss s) (world s) = (Ok acts, w1) ->
     step env acts w1 = (Ok (o, rs, dones), w2) ->
     batch_observe_and_train agent o rs dones (resets_of s) w2 = (Ok tt, w3) ->
     exists mask evs,
       trace (loop_body s).2 = trace s ++ evs /\
       reset_masks evs = [mask] /\
       forall i : fin N,
         mask !!! i
         = negb (dones !!! i
                 || match max_episode_len with
                    | Some m => wrap_int32 (episode_len s !!! i + 1) =? m
                    | None => false
                    end))
  /\
  (forall (S : Type) (slots : W -> vec S N) (restart : S -> S),
     (forall mask w o' w',
        reset env (Some mask) w = (Ok o', w') ->
        slots w' = masked_reset restart mask (slots w)) ->
     forall (s sa : state) acts w1 o rs dones w2 w3,
       batch_act_and_train agent (obss s) (world s) = (Ok acts, w1) ->
       step env acts w1 = (Ok (o, rs, dones), w2) ->
       batch_observe_and_train agent o rs dones (resets_of s) w2 = (Ok tt, w3) ->
       transition s = (Ok tt, sa) ->
       forall i : fin N,
         slots (world sa) !!! i
         = if dones !!! i
              || match max_episode_len with
                 | Some m => wrap_int32 (episode_len s !!! i + 1) =? m
                 | None => false
                 end
           then restart (slots w3 !!! i)
           else slots w3 !!! i).
Proof.
  split.
  - intros s acts w1 o rs dones w2 w3 Hact Hstep Hobs.
    pose proof (transition_run s _ _ _ _ _ _ Hact Hstep) as Hrun.
    rewrite Hobs in Hrun.
    exists (logical_not (end_of s dones)).
    assert (Hmask : forall i : fin N,
               logical_not (end_of s dones) !!! i
               = negb (dones !!! i
                       || match max_episode_len with
                          | Some m => wrap_int32 (episode_len s !!! i + 1) =? m
                          | None => false
                          end)).
    { intros i. now rewrite lookup_logical_not, lookup_end_of. }
    destruct (reset env _ w3) as [[o'|e] w4].
    + pose proof (loop_body_after_transition _ _ Hrun) as [(evs & Htr & HF) _ _ _].
      eexists. split; [|split; [|exact Hmask]].
      { rewrite Htr. unfold after_transition. cbn [trace].
        rewrite <- app_assoc. reflexivity. }
      rewrite reset_masks_app, (reset_masks_late_events evs HF). reflexivity.
    + destruct Hrun as (s2 & Hraise & Htr).
      rewrite (loop_body_raise_in_transition _ _ _ Hraise). cbn [snd].
      eexists. split; [exact Htr|]. split; [reflexivity|exact Hmask].
  - intros S slots restart Henv s sa acts w1 o rs dones w2 w3 Hact Hstep Hobs Htr i.
    pose proof (transition_run s _ _ _ _ _ _ Hact Hstep) as Hrun.
    rewrite Hobs in Hrun.
    destruct (reset env _ w3) as [[o'|e] w4] eqn:Hreset.
    + rewrite Htr in Hrun. injection Hrun as ->.
      unfold after_transition. cbn [world].
      rewrite (Henv _ _ _ _ Hreset). unfold masked_reset.
      rewrite vlookup_zip_with, lookup_logical_not, lookup_end_of.
      now destruct (dones !!! i || _).
    + destruct Hrun as (s2 & Hraise & _). congruence.
Qed.


(** An exception raised by [env.step] in the iteration that follows [k]
    whole ones leaves the loop at once, with the step counter of the
    start of that iteration. *)
Lemma step_exception_leaves_loop fuel k (s0 s : state) acts w1 e w2 :
  iterations k s0 = Some s -> t s < steps -> (k < fuel)%nat ->
  batch_act_and_train agent (obss s) (world s) = (Ok acts, w1) ->
  step env acts w1 = (Raise e, w2) ->
  exists s1, loop fuel s0 = Some (Raise e, s1) /\ t s1 = t s /\ world s1 = w2.
Proof.
  intros Hit Hlt Hfuel Hact Hstep.
  assert (Hbody : exists s1, loop_body s = (Raise e, s1) /\ t s1 = t s /\ world s1 = w2).
  { eexists. split.
    - apply loop_body_raise_in_transition.
      unfold transition, bind, get, modify, call. simpl_state. rewrite Hact.
      simpl_state. rewrite Hstep. reflexivity.
    - split; reflexivity. }
  destruct Hbody as (s1 & Hbody & Ht & Hw). exists s1. split; [|now split].
  replace fuel with (k + S (fuel - S k))%nat by lia.
  rewrite (loop_of_iterations _ _ _ _ Hit). cbn.
  destruct (Z.ltb_spec (t s) steps); [|lia]. now rewrite Hbody.
Qed.


(** *** Side conditions *)

(** The int32 arrays hold int32 values at the start of every
    iteration. *)
Lemma loop_body_int32 (s s' : state) b :
  loop_body s = (Ok b, s') ->
  forall i : fin N,
    int32_range (episode_idx s' !!! i) /\ int32_range (episode_len s' !!! i).
Proof.
  intros Hb i.
  apply loop_body_ok in Hb as (sa & evs & Htr & Hsame & _ & _ & _).
  apply transition_ok in Htr
    as (acts & w1 & o1 & rs & dones & w2 & w3 & o' & w4 & _ & _ & _ & _ & ->).
  destruct Hsame as (_ & Hidx & Hlen & _).
  rewrite Hidx, Hlen. unfold after_transition. cbn [episode_idx episode_len].
  rewrite lookup_int32_add_mask, lookup_mask_assign, lookup_int32_incr.
  split; [apply wrap_int32_range|].
  destruct (end_of s dones !!! i); [|apply wrap_int32_range].
  unfold int32_range, INT32_MIN, INT32_MAX. lia.
Qed.

Lemma iterations_int32 w0 o k (s : state) :
  iterations k (init_state w0 o) = Some s ->
  forall i : fin N,
    int32_range (episode_idx s !!! i) /\ int32_range (episode_len s !!! i).
Proof.
  assert (Hgen : forall k (s0 s : state),
             (forall i : fin N, int32_range (episode_idx s0 !!! i) /\
                                int32_range (episode_len s0 !!! i)) ->
             iterations k s0 = Some s ->
             forall i : fin N, int32_range (episode_idx s !!! i) /\
                               int32_range (episode_len s !!! i)).
  { clear k s. induction k as [|k IH]; intros s0 s H0; cbn.
    - now intros [= <-].
    - destruct (t s0 <? steps); [|discriminate].
      destruct (loop_body s0) as [[[|]|e] s1] eqn:Hb; try discriminate.
      apply IH. exact (loop_body_int32 _ _ _ Hb). }
  apply Hgen. intros i. cbn [init_state episode_idx episode_len].
  rewrite !vlookup_replicate. unfold int32_range, INT32_MIN, INT32_MAX. lia.
Qed.

(** An exception that is neither an [Exception] nor a
    [KeyboardInterrupt] passes through: nothing is saved or closed. *)
Lemma uncaught_exception_passes fuel w o w0 e (s1 : state) :
  reset env None w = (Ok o, w0) ->
  loop fuel (init_state w0 o) = Some (Raise e, s1) ->
  caught e = false ->
  train_agent_batch fuel w = Some (Raise e, world s1, trace s1) /\
  saves (trace s1) = [] /\ env_closes (trace s1) = 0%nat.
Proof.
  intros Hreset Hl Hcaught.
  rewrite (train_agent_batch_run fuel w o w0 Hreset).
  unfold guarded_loop. rewrite Hl, Hcaught. split; [reflexivity|].
  apply loop_trace_init in Hl as (_ & evs & -> & HF).
  change (EvResetAll :: evs) with ([EvResetAll] ++ evs).
  rewrite saves_app, env_closes_app, (saves_loop_events evs HF),
    (env_closes_loop_events evs HF). split; reflexivity.
Qed.


(** *** The exact trace of an iteration *)

Local Abbreviation evaluations := (@evaluations R N).
Local Abbreviation progress_logs := (@progress_logs R N).
Local Abbreviation hook_events_of := (@hook_events_of R N).
Local Abbreviation log_due := (@log_due N log_interval).
Local Abbreviation progress_events := (@progress_events R N log_interval).
Local Abbreviation evaluation_events := (@evaluation_events W R Score N evaluator).
Local Abbreviation same_step := (@same_step W Obss R N).

Lemma hooks_only_run_hooks hooks k : framed hook_event same_locals (run_hooks k hooks).
Proof.
  revert k. induction hooks as [|h hooks IH]; intros k; cbn.
  - apply framed_ret; auto with frame.
  - apply framed_get_bind. intros s.
    apply follows_bind; [eauto with frame| |].
    + apply follows_call; auto with frame.
    + intros _. apply IH.
Qed.

Lemma hooks_only_advance n : framed hook_event same_arrays (advance n).
Proof.
  induction n as [|n IH]; cbn.
  - apply framed_ret; auto with frame.
  - apply framed_bind; [eauto with frame| |].
    + apply framed_modify. intros s.
      apply follows_locals; cbn; [done|lia|done|now repeat split].
    + intros _. apply framed_bind; [eauto with frame| |intros _; exact IH].
      eapply framed_mono; [| |apply hooks_only_run_hooks]; [done|now intros ? ? [? _]].
Qed.

Lemma hook_events_of_calls (evs : list event) :
  Forall (fun ev => hook_event ev = true) evs -> evs = hook_events_of (hook_calls evs).
Proof.
  intros HF. induction HF as [|ev evs Hev _ IH]; [reflexivity|].
  destruct ev; try discriminate.
  change (hook_calls (EvHook k t0 :: evs)) with ((k, t0) :: hook_calls evs).
  cbn. f_equal. exact IH.
Qed.

Lemma advance_events n (s s' : state) :
  advance n s = (Ok tt, s') ->
  trace s' = trace s ++ hook_events_of (tick_calls (t s) n).
Proof.
  intros Hadv.
  pose proof (advance_ok _ _ _ Hadv) as (_ & e1 & Htr1 & Hc1).
  pose proof (framed_run _ _ _ _ _ _ (hooks_only_advance n) Hadv)
    as [(e1' & Htr1' & HF1) _ _ _].
  assert (e1' = e1) as -> by (apply (app_inv_head (trace s)); congruence).
  now rewrite Htr1, (hook_events_of_calls e1 HF1), Hc1.
Qed.

Lemma log_progress_events (s s' : state) :
  log_progress s = (Ok tt, s') ->
  trace s' = trace s ++ progress_events (t s) (np_sum (episode_idx s)).
Proof.
  unfold log_progress, progress_events, log_due.
  destruct log_interval as [li|].
  2:{ unfold ret. intros [= <-]. now rewrite app_nil_r. }
  unfold bind at 1, get.
  destruct (t s <? li).
  { unfold ret. intros [= <-]. cbn. now rewrite app_nil_r. }
  destruct (li =? 0); [discriminate|].
  cbn [negb andb].
  destruct (t s mod li <? Z.of_nat N).
  2:{ unfold ret. intros [= <-]. now rewrite app_nil_r. }
  unfold bind, call. simpl_state.
  destruct (info_progress logger _ _ _ _ _ (world s)) as [[[]|e] w1]; [|discriminate].
  simpl_state.
  destruct (get_statistics agent w1) as [[stats|e] w2]; [|discriminate].
  simpl_state.
  destruct (info_statistics logger stats w2) as [[[]|e] w3]; [|discriminate].
  intros [= <-]. simpl_state. now rewrite <- !app_assoc.
Qed.

(** The evaluator is asked once, whatever it answers. *)
Lemma evaluate_events (s : state) :
  trace (evaluate s).2
  = trace s ++ evaluation_events (t s) (np_sum (episode_idx s)).
Proof.
  unfold evaluate, evaluation_events.
  destruct evaluator as [ev|]; [|cbn; now rewrite app_nil_r].
  unfold bind, get, call, ret. simpl_state.
  destruct (evaluate_if_necessary ev _ _ (world s)) as [[[|]|e] w]; simpl_state;
    try reflexivity.
  destruct successful_score; reflexivity.
Qed.

Lemma loop_body_events (s s' : state) b :
  loop_body s = (Ok b, s') ->
  exists rs dones,
    trace s'
    = trace s
      ++ [EvAct; EvStep; EvObserve rs dones (resets_of s);
          EvReset (logical_not (end_of s dones))]
      ++ hook_events_of (tick_calls (t s) N)
      ++ progress_events (t s') (np_sum (episode_idx s'))
      ++ evaluation_events (t s') (np_sum (episode_idx s')).
Proof.
  unfold loop_body, before_evaluate. unfold bind at 1. unfold bind at 1.
  destruct (transition s) as [[[]|e] sa] eqn:Htr; [|discriminate].
  unfold bind at 1.
  destruct (advance N sa) as [[[]|e] sb] eqn:Hadv; [|discriminate].
  destruct (log_progress sb) as [[[]|e] sc] eqn:Hlog; [|discriminate].
  intros Hev.
  pose proof (evaluate_events sc) as Htr4. rewrite Hev in Htr4. cbn [snd] in Htr4.
  pose proof (framed_run _ _ _ _ _ _ framed_evaluate Hev)
    as [_ _ _ [(_ & Hidx4 & _) Ht4]].
  pose proof (log_progress_events _ _ Hlog) as Htr3.
  pose proof (framed_run _ _ _ _ _ _ framed_log_progress Hlog)
    as [_ _ _ [(_ & Hidx3 & _) Ht3]].
  pose proof (advance_events _ _ _ Hadv) as Htr2.
  apply transition_ok in Htr
    as (acts & w1 & o1 & rs & dones & w2 & w3 & o' & w4 & _ & _ & _ & _ & ->).
  exists rs, dones.
  rewrite Htr4, Htr3, Htr2, Hidx4, Ht4, Hidx3, Ht3.
  unfold after_transition. cbn [trace t].
  now rewrite <- !app_assoc.
Qed.


(** X1.  An iteration that returns advances the step counter by [N] and
    makes these calls, in this order: the agent acts, the environment
    steps, the agent observes with the truncation mask of the iteration,
    the environment is reset with the negation of the end mask made of
    that mask and the observed flags; then the hooks of the [N] ticks;
    then the progress lines when they are due at the new step counter;
    then the evaluator, when there is one, asked with the new step
    counter and the sum of the episode indices. *)
Theorem iteration_trace (s s' : state) b :
  loop_body s = (Ok b, s') ->
  t s' = t s + Z.of_nat N /\
  exists rs dones,
    trace s'
    = trace s
      ++ [EvAct; EvStep; EvObserve rs dones (resets_of s);
          EvReset (logical_not (end_of s dones))]
      ++ hook_events_of (tick_calls (t s) N)
      ++ progress_events (t s') (np_sum (episode_idx s'))
      ++ evaluation_events (t s') (np_sum (episode_idx s')).
Proof.
  intros Hb. split.
  - now apply loop_body_trace in Hb as (Ht & _).
  - exact (loop_body_events _ _ _ Hb).
Qed.

(** *** Logging and evaluation over the iterations *)

Lemma progress_logs_app (e1 e2 : list event) :
  progress_logs (e1 ++ e2) = progress_logs e1 ++ progress_logs e2.
Proof. apply omap_app. Qed.

Lemma evaluations_app (e1 e2 : list event) :
  evaluations (e1 ++ e2) = evaluations e1 ++ evaluations e2.
Proof. apply omap_app. Qed.

Lemma progress_logs_hook_events calls : progress_logs (hook_events_of calls) = [].
Proof. induction calls as [|c calls IH]; [reflexivity|exact IH]. Qed.

Lemma evaluations_hook_events calls : evaluations (hook_events_of calls) = [].
Proof. induction calls as [|c calls IH]; [reflexivity|exact IH]. Qed.

Lemma progress_logs_progress_events v n :
  progress_logs (progress_events v n) = if log_due v then [(v, n)] else [].
Proof. unfold progress_events. now destruct (log_due v). Qed.

Lemma evaluations_progress_events v n : evaluations (progress_events v n) = [].
Proof. unfold progress_events. now destruct (log_due v). Qed.

Lemma progress_logs_evaluation_events v n :
  progress_logs (evaluation_events v n) = [].
Proof. unfold evaluation_events. now destruct evaluator. Qed.

Lemma evaluations_evaluation_events v n :
  evaluations (evaluation_events v n)
  = match evaluator with Some _ => [(v, n)] | None => [] end.
Proof. unfold evaluation_events. now destruct evaluator. Qed.

(** With a positive interval, the test of line 98 holds exactly when a
    positive multiple of the interval lies among the last [N] steps. *)
Lemma log_due_crossing li v :
  log_interval = Some li -> 0 < li ->
  log_due v = true <-> exists m, 1 <= m /\ v - Z.of_nat N < m * li <= v.
Proof.
  intros Hli Hpos. unfold log_due. rewrite Hli.
  rewrite andb_true_iff, negb_true_iff, Z.ltb_ge, Z.ltb_lt.
  pose proof (Z.div_mod v li ltac:(lia)) as Hdm.
  pose proof (Z.mod_pos_bound v li Hpos) as Hmod.
  split.
  - intros [Hge Hlt]. exists (v / li). split; [|nia].
    apply Z.div_le_lower_bound; lia.
  - intros (m & Hm & Hlo & Hhi). split; [nia|].
    assert (m <= v / li) by (apply Z.div_le_lower_bound; lia). nia.
Qed.

(** X2.  With a positive [log_interval], an iteration that returns logs
    the progress exactly when a positive multiple of the interval lies
    among the [N] steps of the iteration, and then once, with the step
    counter after the iteration and the sum of the episode indices. *)
Theorem progress_log_cadence li (s s' : state) b :
  log_interval = Some li -> 0 < li ->
  loop_body s = (Ok b, s') ->
  exists evs,
    trace s' = trace s ++ evs /\
    ((exists m, 1 <= m /\ t s < m * li <= t s + Z.of_nat N) ->
     progress_logs evs = [(t s + Z.of_nat N, np_sum (episode_idx s'))]) /\
    (~ (exists m, 1 <= m /\ t s < m * li <= t s + Z.of_nat N) ->
     progress_logs evs = []).
Proof.
  intros Hli Hpos Hb.
  pose proof (loop_body_trace _ _ _ Hb) as (Ht & _).
  destruct (loop_body_events _ _ _ Hb) as (rs & dones & Htr).
  eexists. split; [exact Htr|].
  rewrite !progress_logs_app, progress_logs_hook_events,
    progress_logs_progress_events, progress_logs_evaluation_events.
  cbn [progress_logs omap list_omap app]. rewrite app_nil_r.
  pose proof (log_due_crossing li (t s') Hli Hpos) as Hdue.
  rewrite Ht in Hdue |- *.
  replace (t s + Z.of_nat N - Z.of_nat N) with (t s) in Hdue by lia.
  split.
  - intros Hm. apply Hdue in Hm. now rewrite Hm.
  - intros Hm. destruct (log_due (t s + Z.of_nat N)); [|reflexivity].
    exfalso. apply Hm, Hdue. reflexivity.
Qed.

Lemma iterations_evaluations k (s s' : state) :
  iterations k s = Some s' ->
  exists evs,
    trace s' = trace s ++ evs /\
    map fst (evaluations evs)
    = match evaluator with
      | Some _ => map (fun j => t s + Z.of_nat (j * N)) (seq 1 k)
      | None => []
      end.
Proof.
  revert s. induction k as [|k IH]; intros s.
  - cbn. intros [= <-]. exists []. rewrite app_nil_r. split; [reflexivity|].
    now destruct evaluator.
  - cbn [iterations]. cbn.
    destruct (t s <? steps); [|discriminate].
    destruct (loop_body s) as [[[|]|e] s1] eqn:Hb; try discriminate.
    intros Hk. apply IH in Hk as (e2 & Htr2 & Hev2).
    pose proof (loop_body_trace _ _ _ Hb) as (Ht & _).
    destruct (loop_body_events _ _ _ Hb) as (rs & dones & Htr1).
    eexists. split.
    { rewrite Htr2, Htr1, <- app_assoc. reflexivity. }
    rewrite !evaluations_app, evaluations_hook_events, evaluations_progress_events,
      evaluations_evaluation_events, !map_app, Hev2.
    cbn [evaluations omap list_omap app map].
    destruct evaluator; [|reflexivity].
    cbn [map fst app]. rewrite <- (seq_shift k 1), map_map. f_equal; [lia|].
    apply map_ext. intros j. lia.
Qed.

(** X3.  Over [k] iterations that return without leaving the loop, an
    evaluator is asked exactly once per iteration, with the step counter
    after that iteration, so [k] times in all; without evaluator nothing
    is asked. *)
Theorem evaluations_per_iteration k (s s' : state) :
  iterations k s = Some s' ->
  exists evs,
    trace s' = trace s ++ evs /\
    map fst (evaluations evs)
    = match evaluator with
      | Some _ => map (fun j => t s + Z.of_nat (j * N)) (seq 1 k)
      | None => []
      end /\
    length (evaluations evs) = match evaluator with Some _ => k | None => 0%nat end.
Proof.
  intros Hit. destruct (iterations_evaluations _ _ _ Hit) as (evs & Htr & Hev).
  exists evs. split; [exact Htr|]. split; [exact Hev|].
  rewrite <- (length_map fst), Hev.
  destruct evaluator; [|reflexivity]. now rewrite length_map, length_seq.
Qed.

(** X4.  The loop is left by [break] only in an iteration in which an
    evaluator was asked, answered that it evaluated, and shows a best
    score that meets [successful_score]: never without an evaluator,
    without a threshold, or when no evaluation was run. *)
Theorem success_exit_needs_evaluation fuel (s s' : state) :
  loop fuel s = Some (Ok SuccessThreshold, s') ->
  exists ev score (sb : state),
    evaluator = Some ev /\ successful_score = Some score /\
    evaluate_if_necessary ev (t s') (np_sum (episode_idx s')) (world sb)
    = (Ok true, world s') /\
    score_ge (max_score ev (world s')) score = true /\
    last (trace s') = Some (EvEvaluate (t s') (np_sum (episode_idx s'))).
Proof.
  intros Hl. apply loop_cases in Hl as (k & s1 & _ & _ & _ & Hb).
  revert Hb. unfold loop_body. unfold bind at 1.
  destruct (before_evaluate s1) as [[[]|e] sb]; [|discriminate].
  intros Hev. apply evaluate_true in Hev as (ev & score & w & Hev & Hsc & Hran & Hge & ->).
  exists ev, score, sb. simpl_state. repeat split; try assumption.
  apply last_snoc.
Qed.


(** *** Exits that are not guarded *)

(** X5.  The first [env.reset()] and the [_finish] save are outside the
    guarded region.  When the first reset raises, the function raises
    after that single call: the agent is not saved and nothing is closed.
    When [save_agent] raises on the normal path, its exception reaches
    the caller: it was the only save, there is no [_except] save and
    nothing is closed. *)
Theorem unguarded_failures :
  (forall fuel w e w',
     reset env None w = (Raise e, w') ->
     train_agent_batch fuel w = Some (Raise e, w', [EvResetAll]))
  /\
  (forall fuel w o w0 x (s1 : state) e w2,
     reset env None w = (Ok o, w0) ->
     loop fuel (init_state w0 o) = Some (Ok x, s1) ->
     save_agent (t s1) outdir "_finish" (world s1) = (Raise e, w2) ->
     exists tr,
       train_agent_batch fuel w = Some (Raise e, w2, tr) /\
       saves tr = [(t s1, "_finish")] /\
       env_closes tr = 0%nat /\ evaluator_env_closes tr = 0%nat).
Proof.
  split.
  - intros fuel w e w' Hreset. unfold train_agent_batch. now rewrite Hreset.
  - intros fuel w o w0 x s1 e w2 Hreset Hl Hsave.
    rewrite (train_agent_batch_run fuel w o w0 Hreset).
    unfold guarded_loop. rewrite Hl.
    destruct (on_finish_run s1 x) as (r & w3 & Hsave' & ->).
    rewrite Hsave in Hsave'. injection Hsave' as <- <-.
    apply loop_trace_init in Hl as (_ & evs & Htr & HF).
    eexists. split; [reflexivity|]. simpl_state. rewrite Htr.
    change (EvResetAll :: evs) with ([EvResetAll] ++ evs).
    rewrite !saves_app, !env_closes_app, !evaluator_env_closes_app,
      (saves_loop_events evs HF), (env_closes_loop_events evs HF),
      (evaluator_env_closes_loop_events evs HF).
    repeat split.
Qed.

(** X6.  When the budget is already reached at the start ([steps] is at
    most [step_offset]), the loop body is never entered, whatever the
    fuel: after the first reset the agent is saved with [_finish] at
    [step_offset]; the environment is not stepped and no hook is
    called. *)
Theorem empty_budget_run fuel w o w0 :
  steps <= step_offset ->
  reset env None w = (Ok o, w0) ->
  exists r w',
    train_agent_batch fuel w
    = Some (r, w', [EvResetAll; EvSave step_offset "_finish"]) /\
    (forall w1,
       save_agent step_offset outdir "_finish"
                  (if has_t agent then set_t agent step_offset w0 else w0)
       = (Ok tt, w1) ->
       r = Ok BudgetExhausted /\ w' = w1).
Proof.
  intros Hsteps Hreset.
  rewrite (train_agent_batch_run fuel w o w0 Hreset).
  unfold guarded_loop.
  assert (Hl : loop fuel (init_state w0 o) = Some (Ok BudgetExhausted, init_state w0 o)).
  { destruct fuel; cbn; destruct (Z.ltb_spec step_offset steps); try lia; reflexivity. }
  rewrite Hl.
  destruct (on_finish_run (init_state w0 o) BudgetExhausted) as (r & w2 & Hsave & ->).
  eexists _, _. split; [reflexivity|].
  intros w1 Hsave1. cbn [init_state t world] in Hsave.
  rewrite Hsave1 in Hsave. injection Hsave as <- <-. split; reflexivity.
Qed.

(** X7.  Without slots the step counter never advances: whole iterations
    leave it as it is, so a loop that is entered below the budget cannot
    be left by the budget, only by an exception or by [break]. *)
Theorem zero_slots_never_exhaust (s : state) :
  N = 0%nat ->
  (forall k s', iterations k s = Some s' -> t s' = t s) /\
  (forall fuel r s', t s < steps -> loop fuel s = Some (r, s') ->
                     r <> Ok BudgetExhausted).
Proof.
  intros HN. split.
  - intros k s' Hit. apply iterations_spec in Hit as (Ht & _). nia.
  - intros fuel r s' Hlt Hl ->.
    apply loop_cases in Hl as (k & s1 & _ & Hit & <- & Hge).
    apply iterations_spec in Hit as (Ht & _). nia.
Qed.

(** X8.  With [log_interval = 0] the remainder of line 100 divides by
    zero: an iteration that reaches a non-negative step counter raises
    [ZeroDivisionError] after its transition and its hooks, before
    anything is logged or evaluated (unless one of those calls raised
    first), and the exception is one that the handler catches.  A run
    that enters the loop with such a step counter therefore never
    returns normally from it. *)
Theorem zero_log_interval_raises (s : state) :
  log_interval = Some 0 -> 0 <= t s + Z.of_nat N ->
  caught ZeroDivisionError = true /\
  (forall sa sb,
     transition s = (Ok tt, sa) -> advance N sa = (Ok tt, sb) ->
     loop_body s = (Raise ZeroDivisionError, sb) /\
     t sb = t s + Z.of_nat N) /\
  (exists e, (loop_body s).1 = Raise e) /\
  (forall fuel r s', t s < steps -> loop fuel s = Some (r, s') ->
                     exists e, r = Raise e).
Proof.
  intros Hli Hnonneg.
  assert (Hzero : forall sb : state, 0 <= t sb ->
            log_progress sb = (Raise ZeroDivisionError, sb)).
  { intros sb Hsb. unfold log_progress. rewrite Hli. unfold bind, get, raise.
    destruct (Z.ltb_spec (t sb) 0); [lia|]. reflexivity. }
  assert (Hbody : forall sa sb,
            transition s = (Ok tt, sa) -> advance N sa = (Ok tt, sb) ->
            loop_body s = (Raise ZeroDivisionError, sb) /\ t sb = t s + Z.of_nat N).
  { intros sa sb Htr Hadv.
    assert (Ht : t sb = t s + Z.of_nat N).
    { apply advance_ok in Hadv as (Ht & _).
      apply transition_ok in Htr
        as (? & ? & ? & ? & ? & ? & ? & ? & ? & _ & _ & _ & _ & ->).
      exact Ht. }
    split; [|exact Ht].
    unfold loop_body, before_evaluate. unfold bind at 1. unfold bind at 1.
    rewrite Htr. unfold bind at 1. rewrite Hadv, Hzero by lia. reflexivity. }
  assert (Hraise : exists e, (loop_body s).1 = Raise e).
  { destruct (transition s) as [[[]|e] sa] eqn:Htr.
    - destruct (advance N sa) as [[[]|e] sb] eqn:Hadv.
      + destruct (Hbody sa sb eq_refl Hadv) as [Hb _]. rewrite Hb. eauto.
      + exists e. unfold loop_body, before_evaluate.
        unfold bind at 1. unfold bind at 1. rewrite Htr.
        unfold bind at 1. now rewrite Hadv.
      - exists e. now rewrite (loop_body_raise_in_transition _ _ _ Htr). }
  split; [reflexivity|]. split; [exact Hbody|]. split; [exact Hraise|].
  intros fuel r s' Hlt Hl.
  destruct fuel as [|fuel]; cbn in Hl;
    destruct (Z.ltb_spec (t s) steps); try lia; [discriminate|].
  destruct Hraise as (e & He).
  destruct (loop_body s) as [[b|e'] s1]; cbn in He; [discriminate|].
  injection Hl as <- <-. eauto.
Qed.


(** *** The int32 arrays before any wrap-around *)

Lemma loop_body_counts (s s' : state) b c :
  loop_body s = (Ok b, s') ->
  0 <= c < INT32_MAX ->
  (forall i : fin N, 0 <= episode_idx s !!! i <= c /\ 0 <= episode_len s !!! i <= c) ->
  forall i : fin N,
    0 <= episode_idx s' !!! i <= c + 1 /\ 0 <= episode_len s' !!! i <= c + 1.
Proof.
  intros Hb Hc Hs i.
  apply loop_body_ok in Hb as (sa & evs & Htr & Hsame & _ & _ & _).
  apply transition_ok in Htr
    as (acts & w1 & o1 & rs & dones & w2 & w3 & o' & w4 & _ & _ & _ & _ & ->).
  destruct Hsame as (_ & Hidx & Hlen & _).
  rewrite Hidx, Hlen. unfold after_transition. cbn [episode_idx episode_len].
  rewrite lookup_int32_add_mask, lookup_mask_assign, lookup_int32_incr.
  destruct (Hs i) as [Hi Hl]. unfold INT32_MAX in Hc.
  rewrite !wrap_int32_id
    by (unfold int32_range, INT32_MIN, INT32_MAX;
        try destruct (end_of s dones !!! i); cbn [Z.b2z]; lia).
  destruct (end_of s dones !!! i); cbn [Z.b2z]; lia.
Qed.

(** X9.  During the first [2 ^ 31 - 1] iterations of a run no int32
    entry wraps around: after [k] iterations every episode index and
    every step count lies between 0 and [k], so that the next increment
    by one is exact. *)
Theorem no_wrap_around_early w0 o k (s : state) :
  iterations k (init_state w0 o) = Some s ->
  Z.of_nat k <= INT32_MAX ->
  forall i : fin N,
    0 <= episode_idx s !!! i <= Z.of_nat k /\
    0 <= episode_len s !!! i <= Z.of_nat k /\
    (Z.of_nat k < INT32_MAX ->
     wrap_int32 (episode_idx s !!! i + 1) = episode_idx s !!! i + 1 /\
     wrap_int32 (episode_len s !!! i + 1) = episode_len s !!! i + 1).
Proof.
  intros Hit Hk.
  assert (Hgen : forall k (s0 s : state) c,
             0 <= c -> c + Z.of_nat k <= INT32_MAX ->
             (forall i : fin N, 0 <= episode_idx s0 !!! i <= c /\
                                0 <= episode_len s0 !!! i <= c) ->
             iterations k s0 = Some s ->
             forall i : fin N, 0 <= episode_idx s !!! i <= c + Z.of_nat k /\
                               0 <= episode_len s !!! i <= c + Z.of_nat k).
  { clear. induction k as [|k IH]; intros s0 s c Hc Hmax H0; cbn [iterations].
    - intros [= <-] i. specialize (H0 i). lia.
    - destruct (t s0 <? steps); [|discriminate].
      destruct (loop_body s0) as [[[|]|e] s1] eqn:Hb; try discriminate.
      intros Hit i.
      pose proof (IH s1 s (c + 1) ltac:(lia) ltac:(lia)
                    (loop_body_counts _ _ _ c Hb ltac:(lia) H0) Hit i).
      lia. }
  assert (Hbounds : forall i : fin N,
             0 <= episode_idx s !!! i <= Z.of_nat k /\
             0 <= episode_len s !!! i <= Z.of_nat k).
  { intros i.
    refine (Hgen k (init_state w0 o) s 0 ltac:(lia) ltac:(lia) _ Hit i).
    intros j. cbn [init_state episode_idx episode_len].
    rewrite !vlookup_replicate. lia. }
  intros i. destruct (Hbounds i) as [Hi Hl]. split; [exact Hi|]. split; [exact Hl|].
  intros Hlt. unfold INT32_MAX in Hlt.
  split; apply wrap_int32_id; unfold int32_range, INT32_MIN, INT32_MAX; lia.
Qed.

(** *** The window as the most recent returns *)

Lemma deque_append_drop {A} maxlen (d : list A) x :
  (length d <= maxlen)%nat ->
  deque_append maxlen d x = drop (length (d ++ [x]) - maxlen) (d ++ [x]).
Proof.
  intros Hd. unfold deque_append. cbn zeta.
  rewrite length_app. cbn [length].
  destruct (Nat.ltb_spec maxlen (length d + 1)) as [Hlt|Hle].
  - replace (length d + 1 - maxlen)%nat with 1%nat by lia.
    now destruct (d ++ [x]).
  - replace (length d + 1 - maxlen)%nat with 0%nat by lia. reflexivity.
Qed.

Lemma deque_extend_drop {A} maxlen (d xs : list A) :
  (length d <= maxlen)%nat ->
  deque_extend maxlen d xs = drop (length (d ++ xs) - maxlen) (d ++ xs).
Proof.
  unfold deque_extend. revert d. induction xs as [|x xs IH]; intros d Hd.
  - cbn. rewrite app_nil_r. replace (length d - maxlen)%nat with 0%nat by lia.
    reflexivity.
  - cbn [fold_left]. rewrite IH by now apply deque_append_length.
    rewrite (deque_append_drop maxlen d x Hd).
    set (c := (length (d ++ [x]) - maxlen)%nat).
    assert (Hc : (c <= length (d ++ [x]))%nat) by lia.
    rewrite <- (drop_app_le (d ++ [x]) xs c Hc), drop_drop, <- app_assoc.
    cbn [app]. f_equal.
    rewrite length_drop, !length_app. cbn [length].
    rewrite length_app in Hc. cbn [length] in Hc.
    unfold c. rewrite length_app. cbn [length]. lia.
Qed.

(** X10.  The window holds the most recent returns.  The returns pushed
    in an iteration are those of the slots whose episode ended in it
    ([env.step] returned done, or the step count incremented for this
    step is [max_episode_len]), each one the return accumulated before
    this step plus the reward of this step, in the order of the slots.
    After the iteration the window is the last [return_window_size]
    entries of what it held followed by those returns (all of them when
    there are fewer). *)
Theorem window_holds_latest (s s' : state) b acts w1 o rs dones w2 :
  batch_act_and_train agent (obss s) (world s) = (Ok acts, w1) ->
  step env acts w1 = (Ok (o, rs, dones), w2) ->
  loop_body s = (Ok b, s') ->
  (length (recent_returns s) <= return_window_size)%nat ->
  let pushed :=
    omap (fun i : fin N =>
            if dones !!! i
               || match max_episode_len with
                  | Some m => wrap_int32 (episode_len s !!! i + 1) =? m
                  | None => false
                  end
            then Some (radd (episode_r s !!! i) (rs !!! i))
            else None)
         (fin_enum N) in
  recent_returns s'
  = drop (length (recent_returns s ++ pushed) - return_window_size)
         (recent_returns s ++ pushed) /\
  (length (recent_returns s ++ pushed) <= return_window_size ->
   recent_returns s' = recent_returns s ++ pushed)%nat.
Proof.
  intros Hact Hstep Hb Hlen pushed.
  pose proof (loop_body_bookkeeping _ _ _ _ _ _ _ _ _ Hact Hstep Hb) as Hbook.
  cbv beta zeta in Hbook. destruct Hbook as (Hwin & _).
  change (omap _ (fin_enum N)) with pushed in Hwin.
  rewrite Hwin, (deque_extend_drop _ _ _ Hlen). split; [reflexivity|].
  intros Hfew.
  replace (length (recent_returns s ++ pushed) - return_window_size)%nat
    with 0%nat by lia.
  reflexivity.
Qed.


(** *** The step counter when an exception leaves the loop *)

Lemma transition_keeps_step : framed transition_event same_step transition.
Proof.
  assert (Hr : forall s : state, same_step s s) by done.
  assert (Ht : forall s1 s2 s3 : state,
             same_step s1 s2 -> same_step s2 s3 -> same_step s1 s3).
  { unfold same_step. intros s1 s2 s3 H12 H23. congruence. }
  assert (Hc : forall (s : state) ev w, same_step s (set_world w (log_event ev s)))
    by done.
  assert (Hm : forall f : state -> state,
             (forall s, trace (f s) = trace s) -> (forall s, t (f s) = t s) ->
             (forall s, recent_returns (f s) = recent_returns s) ->
             framed transition_event same_step (modify f)).
  { intros f H1 H2 H3. apply framed_modify. intros s.
    apply follows_locals; [apply H1|rewrite H2; lia|now rewrite H3|apply H2]. }
  unfold transition.
  apply framed_get_bind. intros s0.
  apply follows_bind; [done|now apply follows_call|intros acts].
  apply framed_bind; [done|now apply framed_call|intros [[o rs] dones]].
  apply framed_bind; [done|now apply Hm|intros _].
  apply framed_bind; [done|now apply Hm|intros _].
  apply framed_bind; [done|now apply Hm|intros _].
  apply framed_get_bind. intros s1.
  apply follows_bind; [done|now apply follows_call|intros _].
  apply framed_bind; [done|now apply Hm|intros _].
  apply framed_bind; [done| |intros _].
  { apply framed_modify. intros s. apply follows_locals; cbn; [done|lia| |done].
    intros Hw. now apply deque_extend_length. }
  apply framed_bind; [done|now apply Hm|intros _].
  apply framed_bind; [done|now apply Hm|intros _].
  apply framed_bind; [done|now apply framed_call|intros o'].
  now apply Hm.
Qed.

Lemma run_hooks_keeps_step hooks k (s : state) : t (run_hooks k hooks s).2 = t s.
Proof. now destruct (hooks_only_run_hooks hooks k s) as [_ _ _ [_ Ht]]. Qed.

Lemma advance_step_bound n (s : state) :
  t s <= t (advance n s).2 <= t s + Z.of_nat n.
Proof.
  revert s. induction n as [|n IH]; intros s; [cbn; lia|].
  change (advance (S n) s)
    with (bind (run_hooks 0 step_hooks) (fun _ => advance n) (set_step (t s + 1) s)).
  unfold bind.
  pose proof (run_hooks_keeps_step step_hooks 0 (set_step (t s + 1) s)) as Hh.
  destruct (run_hooks 0 step_hooks (set_step (t s + 1) s)) as [[[]|e] s1];
    cbn [snd] in Hh |- *; cbn [set_step t] in Hh.
  - specialize (IH s1). lia.
  - lia.
Qed.

Lemma loop_body_step_bound (s : state) r s' :
  loop_body s = (r, s') -> t s <= t s' <= t s + Z.of_nat N.
Proof.
  unfold loop_body, before_evaluate. unfold bind at 1. unfold bind at 1.
  destruct (transition_keeps_step s) as [_ _ _ Hta]. unfold same_step in Hta.
  destruct (transition s) as [[[]|e] sa]; cbn [snd] in Hta.
  2:{ intros [= <- <-]. lia. }
  unfold bind at 1.
  pose proof (advance_step_bound N sa) as Htb.
  destruct (advance N sa) as [[[]|e] sb]; cbn [snd] in Htb.
  2:{ intros [= <- <-]. lia. }
  destruct (framed_log_progress sb) as [_ _ _ [_ Htc]].
  destruct (log_progress sb) as [[[]|e] sc]; cbn [snd] in Htc.
  2:{ intros [= <- <-]. lia. }
  destruct (framed_evaluate sc) as [_ _ _ [_ Htd]].
  intros Hev. rewrite Hev in Htd. cbn [snd] in Htd. lia.
Qed.

(** X11.  When an exception leaves the loop, the step counter, which
    is the step given to the [_except] save, lies within the iteration
    that failed: after [k] whole iterations it is at least
    [t + k * N], the counter at the start of that iteration, which is
    below the budget, and at most [N] more.  An exception raised before
    the hooks (by the agent, by [env.step] or by the masked reset) leaves
    it at the start of the iteration. *)
Theorem exception_step_within_iteration fuel (s0 s1 : state) e :
  loop fuel s0 = Some (Raise e, s1) ->
  exists k sk,
    (k < fuel)%nat /\ iterations k s0 = Some sk /\
    t sk = t s0 + Z.of_nat (k * N) /\ t sk < steps /\
    t sk <= t s1 <= t sk + Z.of_nat N /\
    (forall sa, transition sk = (Raise e, sa) -> t s1 = t sk).
Proof.
  revert s0. induction fuel as [|fuel IH]; intros s0; cbn.
  - destruct (t s0 <? steps); discriminate.
  - destruct (Z.ltb_spec (t s0) steps) as [Hlt|Hge]; [|discriminate].
    destruct (loop_body s0) as [[[|]|e'] s2] eqn:Hb.
    + discriminate.
    + intros Hl. apply IH in Hl as (k & sk & Hk & Hit & Ht & Hlt' & Hbound & Htr).
      pose proof (loop_body_trace _ _ _ Hb) as (Ht2 & _).
      exists (S k), sk. split; [lia|]. split.
      { cbn. destruct (Z.ltb_spec (t s0) steps); [|lia]. now rewrite Hb. }
      split; [lia|]. split; [exact Hlt'|]. split; [exact Hbound|exact Htr].
    + intros [= <- <-]. exists 0%nat, s0. split; [lia|]. split; [reflexivity|].
      split; [lia|]. split; [exact Hlt|].
      pose proof (loop_body_step_bound s0 _ _ Hb) as Hbound.
      split; [exact Hbound|].
      intros sa Htr. rewrite (loop_body_raise_in_transition _ _ _ Htr) in Hb.
      injection Hb as <-.
      pose proof (framed_run _ _ _ _ _ _ transition_keeps_step Htr) as [_ _ _ Hta].
      exact Hta.
Qed.


(** *** Counting the calls of a run *)

Lemma env_steps_hook_events calls : env_steps (hook_events_of calls) = 0%nat.
Proof. induction calls as [|c calls IH]; [reflexivity|exact IH]. Qed.

Lemma env_steps_progress_events v n : env_steps (progress_events v n) = 0%nat.
Proof. unfold progress_events. now destruct (log_due v). Qed.

Lemma env_steps_evaluation_events v n : env_steps (evaluation_events v n) = 0%nat.
Proof. unfold evaluation_events. now destruct evaluator. Qed.

Lemma loop_body_call_counts (s s' : state) b :
  loop_body s = (Ok b, s') ->
  exists evs,
    trace s' = trace s ++ evs /\ env_steps evs = 1%nat /\
    length (evaluations evs) = match evaluator with Some _ => 1%nat | None => 0%nat end.
Proof.
  intros Hb. destruct (loop_body_events _ _ _ Hb) as (rs & dones & Htr).
  eexists. split; [exact Htr|].
  rewrite !env_steps_app, env_steps_hook_events, env_steps_progress_events,
    env_steps_evaluation_events.
  rewrite !evaluations_app, evaluations_hook_events, evaluations_progress_events,
    evaluations_evaluation_events.
  split; [reflexivity|]. now destruct evaluator.
Qed.

(** When the loop is left without an exception, every iteration has
    asked the evaluator once. *)
Lemma loop_call_counts fuel (s s' : state) x :
  loop fuel s = Some (Ok x, s') ->
  exists evs,
    trace s' = trace s ++ evs /\
    length (evaluations evs)
    = match evaluator with Some _ => env_steps evs | None => 0%nat end.
Proof.
  revert s. induction fuel as [|fuel IH]; intros s; cbn.
  - destruct (t s <? steps); [discriminate|]. intros [= <- <-].
    exists []. rewrite app_nil_r. split; [reflexivity|]. now destruct evaluator.
  - destruct (t s <? steps).
    2:{ intros [= <- <-]. exists []. rewrite app_nil_r. split; [reflexivity|].
        now destruct evaluator. }
    destruct (loop_body s) as [[[|]|e] s1] eqn:Hb; [| |discriminate].
    + intros [= <- <-].
      destruct (loop_body_call_counts _ _ _ Hb) as (evs & Htr & Hs & He).
      exists evs. split; [exact Htr|]. rewrite He, Hs. reflexivity.
    + intros Hl. apply IH in Hl as (e2 & Htr2 & He2).
      destruct (loop_body_call_counts _ _ _ Hb) as (e1 & Htr1 & Hs1 & He1).
      exists (e1 ++ e2). split; [rewrite Htr2, Htr1; now rewrite app_assoc|].
      rewrite evaluations_app, length_app, env_steps_app, He1, He2, Hs1.
      now destruct evaluator.
Qed.


End properties.

(** ** Training with evaluation *)

Section with_evaluation_properties.
Context {W Obss Acts R Score Stats : Type} {N : nat}.
Variable radd : R -> R -> R.
Variable rzero : R.
Variable np_mean : list R -> R.
Variable score_ge : Score -> Score -> bool.
Variable makedirs : string -> bool -> @ext W unit.
Variable Evaluator_init :
  @EvaluatorArgs W Obss Acts R Stats N -> @ext W (@Evaluator W Score).
Variable agent : @Agent W Obss Acts R Stats N.
Variable env : @Env W Obss Acts R N.
Variable steps : Z.
Variable eval_n_runs : Z.
Variable eval_interval : Z.
Variable outdir : string.
Variable max_episode_len : option Z.
Variable step_offset : Z.
Variable eval_max_episode_len : option Z.
Variable return_window_size : nat.
Variable eval_env : option (@Env W Obss Acts R N).
Variable log_interval : option Z.
Variable successful_score : option Score.
Variable step_hooks : list (@Hook W).
Variable save_best_so_far_agent : bool.
Variable logger : @Logger W R Stats.
Variable save_agent : Z -> string -> string -> @ext W unit.

Local Abbreviation state := (@state W Obss R N).
Local Abbreviation args :=
  (evaluator_args agent env eval_n_runs eval_interval outdir max_episode_len
     step_offset eval_max_episode_len eval_env save_best_so_far_agent logger).
Local Abbreviation train_with_evaluation :=
  (train_agent_batch_with_evaluation radd rzero np_mean score_ge makedirs
     Evaluator_init agent env steps eval_n_runs eval_interval outdir
     max_episode_len step_offset eval_max_episode_len return_window_size
     eval_env log_interval successful_score step_hooks save_best_so_far_agent
     logger save_agent).
Local Abbreviation loop_with ev :=
  (loop radd rzero np_mean score_ge agent env steps outdir log_interval
     max_episode_len (Some ev) successful_score step_hooks return_window_size
     logger).
Local Abbreviation init_state := (@init_state W Obss Acts R Stats N rzero agent step_offset).

(** X12.  Training with evaluation always has an evaluator: when an
    exception that the handler catches leaves the loop and the calls of
    the handler return, the agent is saved with [_except], then
    [env.close()] and [evaluator.env.close()] are both called, and the
    exception reaches the caller.  When no [eval_env] was given, the
    evaluator was constructed with the training environment: if the
    evaluator keeps that environment as its [env], the second call closes
    the training environment again. *)
Theorem with_evaluation_exception fuel w wa ev wb o w0 e (s1 : state) w2 w3 w4 :
  makedirs outdir true w = (Ok tt, wa) ->
  Evaluator_init args wa = (Ok ev, wb) ->
  reset env None wb = (Ok o, w0) ->
  loop_with ev fuel (init_state w0 o) = Some (Raise e, s1) ->
  caught e = true ->
  save_agent (t s1) outdir "_except" (world s1) = (Ok tt, w2) ->
  close env w2 = (Ok tt, w3) ->
  evaluator_env_close ev w3 = (Ok tt, w4) ->
  train_with_evaluation fuel w
  = Some (Raise e, w4,
          [EvMakedirs outdir true; EvEvaluatorInit args],
          trace s1 ++ [EvSave (t s1) "_except"; EvEnvClose; EvEvaluatorEnvClose]) /\
  (eval_env = None ->
   evaluator_env_close ev = close (arg_env args) ->
   close env w3 = (Ok tt, w4)).
Proof.
  intros Hmk Hinit Hreset Hl Hcaught Hsave Hclose Hevclose. split.
  - unfold train_agent_batch_with_evaluation. rewrite Hmk, Hinit.
    unfold train_agent_batch. rewrite Hreset.
    unfold guarded_loop. rewrite Hl, Hcaught.
    unfold on_exception, bind, get, call, ret, raise. simpl_state.
    rewrite Hsave. simpl_state. rewrite Hclose. simpl_state. rewrite Hevclose.
    simpl_state. now rewrite <- !app_assoc.
  - intros Hnone Hkeeps. rewrite Hkeeps in Hevclose.
    unfold evaluator_args in Hevclose. rewrite Hnone in Hevclose. exact Hevclose.
Qed.

(** X13.  When training with evaluation returns normally, it has
    created the output directory, constructed the evaluator once with the
    defaults filled in, and then trained: the agent was saved once, with
    [_finish], neither environment was closed, and the evaluator was
    asked exactly once for each step of the environment. *)
Theorem with_evaluation_normal_return fuel w x w' setup tr :
  train_with_evaluation fuel w = Some (Ok x, w', setup, tr) ->
  setup = [EvMakedirs outdir true; EvEvaluatorInit args] /\
  arg_env args = match eval_env with None => env | Some e => e end /\
  arg_max_episode_len args
  = match eval_max_episode_len with None => max_episode_len | Some m => Some m end /\
  (exists v, saves tr = [(v, "_finish")]) /\
  env_closes tr = 0%nat /\ evaluator_env_closes tr = 0%nat /\
  length (evaluations tr) = env_steps tr.
Proof.
  unfold train_agent_batch_with_evaluation.
  destruct (makedirs outdir true w) as [[[]|e] wa]; [|discriminate].
  destruct (Evaluator_init args wa) as [[ev|e] wb]; [|discriminate].
  destruct (train_agent_batch _ _ _ _ _ _ _ _ _ _ _ _ _ _ _ _ _ _ wb)
    as [[[r w3] tr3]|] eqn:Htrain; [|discriminate].
  intros [= -> -> <- ->]. split; [reflexivity|].
  split; [reflexivity|]. split; [reflexivity|].
  apply train_agent_batch_ok in Htrain as (o & w0 & s1 & _ & Hl & _ & ->).
  pose proof (loop_trace_init _ _ _ _ _ _ _ _ _ _ _ _ _ _ _ _ _ _ _ _ _ Hl)
    as (_ & evs & Htr & HF).
  destruct (loop_call_counts _ _ _ _ _ _ _ _ _ _ _ _ _ _ _ _ _ _ _ Hl)
    as (evs' & Htr' & Hcount).
  assert (evs' = evs) as ->.
  { rewrite Htr in Htr'. cbn [init_state trace] in Htr'. now injection Htr' as ->. }
  rewrite Htr. change (EvResetAll :: evs) with ([EvResetAll] ++ evs).
  rewrite !saves_app, !env_closes_app, !evaluator_env_closes_app,
    !evaluations_app, !env_steps_app, !length_app,
    (saves_loop_events evs HF), (env_closes_loop_events evs HF),
    (evaluator_env_closes_loop_events evs HF), Hcount.
  split; [eexists; reflexivity|]. repeat split.
Qed.

End with_evaluation_properties.

(** ** The theorems on runs of the example world *)

(** A run of three steps with one slot and one hook returns after the
    budget; nothing is closed. *)
Lemma normal_return_closes_nothing_witness :
  exists w tr,
    Demo.run Demo.never_done 3 None 0 None None [Demo.quiet_hook] 3
             Demo.save_ok 3
    = Some (Ok BudgetExhausted, w, tr) /\
    env_closes tr = 0%nat /\ evaluator_env_closes tr = 0%nat.
Proof.
  eexists _, _. split; [vm_compute; reflexivity|].
  eapply (normal_return_closes_nothing Z.add 0 (fun _ => 0) Z.geb
            (Demo.quiet_agent 1) (Demo.scripted_env 1 Demo.never_done) 3 "out"
            None None 0 None None [Demo.quiet_hook] 3%nat Demo.quiet_logger
            Demo.save_ok 3%nat 0%nat).
  vm_compute. reflexivity.
Defined.

(** Three runs in which the second call of [env.step] raises, with an
    evaluator.  In the first the exception is a [RuntimeError]: the
    agent is saved at step 1 with [_except], both environments are
    closed and the [RuntimeError] reaches the caller.  In the second it
    is a [KeyboardInterrupt], with the same outcome.  In the third
    [env.close()] fails: the agent has been saved, the evaluator's
    environment is not closed and the caller gets the exception of
    [env.close()]. *)
Lemma exception_checkpoint_witness :
  (exists w tr,
     Demo.run Demo.fails_at_second_step 3 None 0 (Some (Demo.eager_evaluator 0))
              (Some 1) [Demo.quiet_hook] 3 Demo.save_ok 3
     = Some (Raise Demo.RuntimeError, w, tr) /\
     saves tr = [(1, "_except")] /\
     env_closes tr = 1%nat /\ evaluator_env_closes tr = 1%nat)
  /\
  (exists w tr,
     Demo.run Demo.interrupted_at_second_step 3 None 0
              (Some (Demo.eager_evaluator 0)) (Some 1) [Demo.quiet_hook] 3
              Demo.save_ok 3
     = Some (Raise Demo.KeyboardInterrupt, w, tr) /\
     saves tr = [(1, "_except")] /\
     env_closes tr = 1%nat /\ evaluator_env_closes tr = 1%nat)
  /\
  (exists w tr,
     train_agent_batch Z.add 0 (fun _ => 0) Z.geb (Demo.quiet_agent 1)
       (Demo.unclosable_env Demo.fails_at_second_step) 3 "out" None None 0
       (Some (Demo.eager_evaluator 0)) (Some 1) [Demo.quiet_hook] 3
       Demo.quiet_logger Demo.save_ok 3 0%nat
     = Some (Raise Demo.BrokenPipeError, w, tr) /\
     saves tr = [(1, "_except")] /\
     env_closes tr = 1%nat /\ evaluator_env_closes tr = 0%nat).
Proof.
  split; [|split].
  - edestruct (exception_checkpoint Z.add 0 (fun _ => 0) Z.geb
                 (Demo.quiet_agent 1)
                 (Demo.scripted_env 1 Demo.fails_at_second_step) 3 "out"
                 None None 0 (Some (Demo.eager_evaluator 0)) (Some 1)
                 [Demo.quiet_hook] 3%nat Demo.quiet_logger Demo.save_ok 3%nat
                 0%nat tt 0%nat)
      as (e' & w' & tr & Hrun & Hsaves & Hrest).
    + reflexivity.
    + vm_compute. reflexivity.
    + left. reflexivity.
    + cbn in Hrest. destruct Hrest as (-> & _ & _ & Hc & Hec).
      exists w', tr. split; [exact Hrun|]. split; [exact Hsaves|]. split; assumption.
  - edestruct (exception_checkpoint Z.add 0 (fun _ => 0) Z.geb
                 (Demo.quiet_agent 1)
                 (Demo.scripted_env 1 Demo.interrupted_at_second_step) 3 "out"
                 None None 0 (Some (Demo.eager_evaluator 0)) (Some 1)
                 [Demo.quiet_hook] 3%nat Demo.quiet_logger Demo.save_ok 3%nat
                 0%nat tt 0%nat)
      as (e' & w' & tr & Hrun & Hsaves & Hrest).
    + reflexivity.
    + vm_compute. reflexivity.
    + right. reflexivity.
    + cbn in Hrest. destruct Hrest as (-> & _ & _ & Hc & Hec).
      exists w', tr. split; [exact Hrun|]. split; [exact Hsaves|]. split; assumption.
  - edestruct (exception_checkpoint Z.add 0 (fun _ => 0) Z.geb
                 (Demo.quiet_agent 1)
                 (Demo.unclosable_env Demo.fails_at_second_step) 3 "out"
                 None None 0 (Some (Demo.eager_evaluator 0)) (Some 1)
                 [Demo.quiet_hook] 3%nat Demo.quiet_logger Demo.save_ok 3%nat
                 0%nat tt 0%nat)
      as (e' & w' & tr & Hrun & Hsaves & Hrest).
    + reflexivity.
    + vm_compute. reflexivity.
    + left. reflexivity.
    + cbn in Hrest. destruct Hrest as (-> & _ & _ & Hc & Hec).
      exists w', tr. split; [exact Hrun|]. split; [exact Hsaves|]. split; assumption.
Defined.

(** The same failure when [save_agent] itself fails (the disk is full):
    the exception that reaches the caller is that of [save_agent], not
    the one raised by [env.step], and the environment is not closed. *)
Lemma exception_checkpoint_counterexample :
  Demo.fails_at_second_step 1%nat = Raise Demo.RuntimeError /\
  exists w tr,
    Demo.run Demo.fails_at_second_step 3 None 0 None None [] 3
             Demo.save_fails 3
    = Some (Raise Demo.OSError, w, tr) /\
    Demo.OSError <> Demo.RuntimeError /\
    saves tr = [(1, "_except")] /\
    env_closes tr = 0%nat.
Proof.
  split; [reflexivity|]. eexists _, _.
  split; [vm_compute; reflexivity|]. split; [discriminate|].
  split; reflexivity.
Qed.

(** With budget 3 the evaluation of the first iteration meets the
    threshold: the loop is left at step 1 after one environment step and
    the agent is saved with [_finish]. *)
Lemma finish_checkpoint_witness :
  exists w tr,
    Demo.run Demo.never_done 3 None 0 (Some (Demo.eager_evaluator 1)) (Some 1)
             [] 3 Demo.save_ok 3
    = Some (Ok SuccessThreshold, w, tr) /\
    env_steps tr = 1%nat /\
    saves tr = [(1, "_finish")] /\
    last tr = Some (EvSave 1 "_finish").
Proof.
  destruct (finish_checkpoint Z.add 0 (fun _ => 0) Z.geb
              (Demo.quiet_agent 1) (Demo.scripted_env 1 Demo.never_done) 3 "out"
              None None 0 (Some (Demo.eager_evaluator 1)) (Some 1)
              [] 3%nat Demo.quiet_logger Demo.save_ok)
    as [Hnormal Hearly].
  edestruct (Hearly 3%nat 0%nat tt 0%nat 0%nat)
    as (_ & r & w' & tr & Hrun & Hsteps & Hsaves & Hres).
  - reflexivity.
  - reflexivity.
  - reflexivity.
  - reflexivity.
  - vm_compute. reflexivity.
  - vm_compute. reflexivity.
  - vm_compute. reflexivity.
  - reflexivity.
  - lia.
  - destruct (Hres 1%nat eq_refl) as [-> ->].
    destruct (Hnormal _ _ _ _ _ Hrun) as (v & Hv & Hlast).
    rewrite Hsaves in Hv. injection Hv as <-.
    exists 1%nat, tr. split; [exact Hrun|]. split; [exact Hsteps|].
    split; [exact Hsaves|exact Hlast].
Defined.

(** With budget 1 the same evaluation is made when the step counter has
    already reached the budget: the loop is left by the threshold, but
    not before the budget is reached. *)
Lemma finish_checkpoint_counterexample :
  exists w tr,
    Demo.run Demo.never_done 1 None 0 (Some (Demo.eager_evaluator 1)) (Some 1)
             [] 3 Demo.save_ok 3
    = Some (Ok SuccessThreshold, w, tr) /\
    saves tr = [(1, "_finish")] /\
    ~ (1 < 1).
Proof.
  eexists _, _. split; [vm_compute; reflexivity|]. split; [reflexivity|lia].
Qed.

(** From step 5 to step 10 with one slot: five iterations, and the step
    counter ends at 10. *)
Lemma budget_iterations_witness :
  exists w tr,
    Demo.run Demo.never_done 10 None 5 None None [] 3 Demo.save_ok 5
    = Some (Ok BudgetExhausted, w, tr) /\
    env_steps tr = 5%nat /\ saves tr = [(10, "_finish")].
Proof.
  destruct (budget_iterations Z.add 0 (fun _ => 0) Z.geb
              (Demo.quiet_agent 1) (Demo.scripted_env 1 Demo.never_done) 10 "out"
              None None 5 None None [] 3%nat Demo.quiet_logger Demo.save_ok
              5 5%nat 0%nat)
    as [_ Hrun]; [lia|lia|reflexivity|lia|].
  eexists _, _. split; [vm_compute; reflexivity|].
  edestruct (Hrun 5%nat) as (Hs & Hv & _); [vm_compute; reflexivity|].
  split; [exact Hs|exact Hv].
Defined.

(** The budget 10 is a multiple of the number of slots, 1, but the run
    starts at step 5: it makes 5 iterations, not 10, and the step counter
    ends at 10, not at 15. *)
Lemma budget_iterations_counterexample :
  exists w tr,
    Demo.run Demo.never_done 10 None 5 None None [] 3 Demo.save_ok 10
    = Some (Ok BudgetExhausted, w, tr) /\
    env_steps tr = 5%nat /\ env_steps tr <> Z.to_nat (10 / 1) /\
    saves tr = [(10, "_finish")] /\ 10 <> 5 + 10.
Proof.
  eexists _, _. split; [vm_compute; reflexivity|].
  split; [reflexivity|]. split; [vm_compute; lia|]. split; [reflexivity|lia].
Qed.

(** Two slots and budget 3: two iterations, the step counter ends at 4,
    and the hook is called with the steps 1 to 4. *)
Lemma budget_overshoot_witness :
  exists w tr,
    Demo.run Demo.second_slot_done 3 None 0 None None [Demo.quiet_hook] 3
             Demo.save_ok 2
    = Some (Ok BudgetExhausted, w, tr) /\
    saves tr = [(4, "_finish")] /\ In 4 (hook_args 0 tr).
Proof.
  destruct (budget_overshoot Z.add 0 (fun _ => 0) Z.geb
              (Demo.quiet_agent 2) (Demo.scripted_env 2 Demo.second_slot_done)
              3 "out" None None 0 None None [Demo.quiet_hook] 3%nat
              Demo.quiet_logger Demo.save_ok)
    as [_ Hrun]; [lia|vm_compute; discriminate|].
  eexists _, _. split; [vm_compute; reflexivity|].
  edestruct (Hrun 2%nat 0%nat) as (t_end & Hv & _ & _ & _ & _ & Hhooks);
    [vm_compute; reflexivity|].
  injection Hv as <-. split; [reflexivity|].
  apply Hhooks; [cbn; lia|lia].
Defined.

Lemma hooks_per_tick_witness :
  exists w tr,
    Demo.run Demo.second_slot_done 4 None 0 None None
             [Demo.quiet_hook; Demo.quiet_hook] 3 Demo.save_ok 2
    = Some (Ok BudgetExhausted, w, tr) /\
    hook_calls tr
    = [(0%nat, 1); (1%nat, 1); (0%nat, 2); (1%nat, 2);
       (0%nat, 3); (1%nat, 3); (0%nat, 4); (1%nat, 4)] /\
    hook_args 1 tr = [1; 2; 3; 4].
Proof.
  destruct (hooks_per_tick Z.add 0 (fun _ => 0) Z.geb
              (Demo.quiet_agent 2) (Demo.scripted_env 2 Demo.second_slot_done)
              4 "out" None None 0 None None [Demo.quiet_hook; Demo.quiet_hook]
              3%nat Demo.quiet_logger Demo.save_ok)
    as [_ Hrun].
  eexists _, _. split; [vm_compute; reflexivity|].
  edestruct (Hrun 2%nat 0%nat 2%nat) as (n & Hv & Hcalls & Hargs & _);
    [vm_compute; reflexivity|].
  injection Hv as Hn. assert (n = 4%nat) as -> by lia.
  split; [exact Hcalls|]. apply (Hargs 1%nat). cbn. lia.
Defined.

(** Two slots and budget 3, a multiple of neither: the hook is called four
    times, with the steps 1 to 4, not three times. *)
Lemma hooks_per_tick_counterexample :
  exists w tr,
    Demo.run Demo.second_slot_done 3 None 0 None None [Demo.quiet_hook] 3
             Demo.save_ok 2
    = Some (Ok BudgetExhausted, w, tr) /\
    hook_args 0 tr = [1; 2; 3; 4] /\
    length (hook_args 0 tr) <> Z.to_nat 3.
Proof.
  eexists _, _. split; [vm_compute; reflexivity|].
  split; [reflexivity|]. vm_compute. lia.
Qed.

(** With a limit of two steps, the truncation is due in the second
    iteration of an episode and the step count is then reset. *)
Lemma truncation_exact_witness :
  Demo.body Demo.never_done (Some 2) [] 3 (Demo.start 1 0)
  = (Ok false, Demo.after_one_step) /\
  truncation_mask (Some 2) (int32_incr (episode_len Demo.after_one_step)) !!! 0%fin
  = true /\
  exists s',
    Demo.body Demo.never_done (Some 2) [] 3 Demo.after_one_step = (Ok false, s') /\
    episode_len s' !!! 0%fin = 0.
Proof.
  destruct (truncation_exact Z.add 0 (fun _ => 0) Z.geb
              (Demo.quiet_agent 1) (Demo.scripted_env 1 Demo.never_done) "out"
              None (Some 2) None None [] 3%nat Demo.quiet_logger)
    as (Hmask & Hfire & Hbelow).
  split; [vm_compute; reflexivity|].
  assert (Hm : truncation_mask (Some 2)
                 (int32_incr (episode_len Demo.after_one_step)) !!! 0%fin = true).
  { apply Hmask. exists 2. split; reflexivity. }
  split; [exact Hm|].
  eexists. split; [vm_compute; reflexivity|].
  edestruct (Hfire Demo.after_one_step) as (rs & dones & evs & _ & Hreset);
    [vm_compute; reflexivity|].
  apply (Hreset 0%fin). exact Hm.
Defined.

(** With a window of three returns, five episodes leave the last three
    returns in the window. *)
Lemma return_window_bounded_witness :
  exists s,
    Demo.after_iterations Demo.always_done 5 5 = Some s /\
    recent_returns s = [1; 1; 1] /\
    (length (recent_returns s) <= 3)%nat.
Proof.
  destruct (return_window_bounded Z.add 0 (fun _ => 0) Z.geb
              (Demo.quiet_agent 1) (Demo.scripted_env 1 Demo.always_done) 5 "out"
              None None 0 None None [] 3%nat Demo.quiet_logger)
    as (_ & _ & _ & Hbetween & _).
  eexists. split; [vm_compute; reflexivity|]. split; [reflexivity|].
  apply (Hbetween 0%nat tt 5%nat). vm_compute. reflexivity.
Defined.

(** Two slots with a limit of two steps, in an environment that keeps a
    position per slot and resets as the spec says.  In the first
    iteration the second slot is done: the mask is (true, false).  In
    the second iteration no slot is done and the first slot reaches the
    limit: the mask is (false, true); the positions, (2, 1) before the
    reset, are (0, 1) after it: the first slot is restarted and the
    second is where it was. *)
Lemma reset_mask_is_not_end_witness :
  (exists mask evs,
     trace (Demo.slot_body Demo.second_slot_done_once (Some 2) (Demo.slot_start 2)).2
     = trace (Demo.slot_start 2) ++ evs /\
     reset_masks evs = [mask] /\
     mask !!! 0%fin = true /\ mask !!! 1%fin = false)
  /\
  (exists mask evs,
     trace (Demo.slot_body Demo.second_slot_done_once (Some 2) Demo.slot_after_one).2
     = trace Demo.slot_after_one ++ evs /\
     reset_masks evs = [mask] /\
     mask !!! 0%fin = false /\ mask !!! 1%fin = true)
  /\
  (exists sa,
     Demo.slot_transition Demo.second_slot_done_once (Some 2) Demo.slot_after_one
     = (Ok tt, sa) /\
     (step (Demo.slot_env 2 Demo.second_slot_done_once) tt
           (world Demo.slot_after_one)).2.2 = [# 2; 1] /\
     (world sa).2 !!! 0%fin = 0 /\ (world sa).2 !!! 1%fin = 1).
Proof.
  destruct (reset_mask_is_not_end Z.add 0 (fun _ => 0) Z.geb
              (Demo.slot_agent 2) (Demo.slot_env 2 Demo.second_slot_done_once)
              "out" None (Some 2) None None [] 3%nat (Demo.slot_logger 2))
    as (Hcall & Hslots).
  split; [|split].
  - edestruct (Hcall (Demo.slot_start 2)) as (mask & evs & Htr & Hmasks & Hmask).
    + reflexivity.
    + reflexivity.
    + reflexivity.
    + exists mask, evs. split; [exact Htr|]. split; [exact Hmasks|].
      split; [exact (Hmask 0%fin)|exact (Hmask 1%fin)].
  - edestruct (Hcall Demo.slot_after_one) as (mask & evs & Htr & Hmasks & Hmask).
    + reflexivity.
    + reflexivity.
    + reflexivity.
    + exists mask, evs. split; [exact Htr|]. split; [exact Hmasks|].
      split; [exact (Hmask 0%fin)|exact (Hmask 1%fin)].
  - eexists. split; [vm_compute; reflexivity|]. split; [reflexivity|].
    assert (Henv : forall (mask : vec bool 2) (w : Demo.slot_world 2) o' w',
               reset (Demo.slot_env 2 Demo.second_slot_done_once) (Some mask) w
               = (Ok o', w') ->
               w'.2 = masked_reset (fun _ => 0) mask w.2).
    { intros mask w o' w' [= _ <-]. reflexivity. }
    split.
    + eapply (Hslots Z snd (fun _ => 0) Henv Demo.slot_after_one _ tt
                (1%nat, [# 1; 0]) tt [# 1; 10] [# false; false]
                (2%nat, [# 2; 1]) (2%nat, [# 2; 1]) eq_refl eq_refl eq_refl
                eq_refl 0%fin).
    + eapply (Hslots Z snd (fun _ => 0) Henv Demo.slot_after_one _ tt
                (1%nat, [# 1; 0]) tt [# 1; 10] [# false; false]
                (2%nat, [# 2; 1]) (2%nat, [# 2; 1]) eq_refl eq_refl eq_refl
                eq_refl 1%fin).
Defined.

(** ** The episode index at the end of the int32 range

    One slot whose episode ends at every step, for [2 ^ 31] steps. *)

Lemma wrap_int32_add_l a b : wrap_int32 (wrap_int32 a + b) = wrap_int32 (a + b).
Proof.
  unfold wrap_int32. f_equal.
  replace ((a + 2 ^ 31) mod 2 ^ 32 - 2 ^ 31 + b + 2 ^ 31)
    with ((a + 2 ^ 31) mod 2 ^ 32 + b) by lia.
  rewrite Zplus_mod_idemp_l. f_equal. lia.
Qed.

Lemma always_done_body (s : @state nat unit Z 1) :
  exists s',
    Demo.body Demo.always_done None [] 3 s = (Ok false, s') /\
    t s' = t s + 1 /\
    episode_idx s' !!! 0%fin = wrap_int32 (episode_idx s !!! 0%fin + 1).
Proof.
  pose proof (transition_run Z.add 0 (Demo.quiet_agent 1)
                (Demo.scripted_env 1 Demo.always_done) None 3%nat s
                tt (world s) tt [# 1] [# true] (S (world s)) eq_refl eq_refl) as Htr.
  cbn [batch_observe_and_train reset Demo.quiet_agent Demo.scripted_env] in Htr.
  eexists. split; [|split].
  - unfold Demo.body, loop_body, before_evaluate.
    unfold bind at 1. unfold bind at 1. rewrite Htr. reflexivity.
  - reflexivity.
  - cbn [episode_idx set_step after_transition].
    rewrite lookup_int32_add_mask. unfold end_of. rewrite lookup_logical_or.
    now rewrite orb_true_r.
Qed.

Lemma always_done_iterations steps k (s : @state nat unit Z 1) :
  t s + Z.of_nat k <= steps ->
  int32_range (episode_idx s !!! 0%fin) ->
  exists s',
    iterations Z.add 0 (fun _ => 0) Z.geb (Demo.quiet_agent 1)
      (Demo.scripted_env 1 Demo.always_done) steps "out" None None None None []
      3 Demo.quiet_logger k s = Some s' /\
    t s' = t s + Z.of_nat k /\
    episode_idx s' !!! 0%fin = wrap_int32 (episode_idx s !!! 0%fin + Z.of_nat k).
Proof.
  revert s. induction k as [|k IH]; intros s Hk Hrange.
  - exists s. split; [reflexivity|]. split; [lia|].
    rewrite Z.add_0_r. symmetry. now apply wrap_int32_id.
  - destruct (always_done_body s) as (s1 & Hbody & Ht1 & Hidx1).
    destruct (IH s1) as (s' & Hit & Ht & Hidx).
    { lia. }
    { rewrite Hidx1. apply wrap_int32_range. }
    exists s'. split; [|split].
    + cbn [iterations]. destruct (Z.ltb_spec (t s) steps); [|lia].
      unfold Demo.body in Hbody. now rewrite Hbody.
    + lia.
    + rewrite Hidx, Hidx1, wrap_int32_add_l. f_equal. lia.
Qed.

(** After [2 ^ 31 - 1] episodes the step counter is still below the
    budget and the episode index of the slot is [INT32_MAX]; the episode
    that ends in the next iteration takes it to [INT32_MIN], not to
    [INT32_MAX + 1]. *)
Lemma always_done_overflow :
  exists s s',
    Demo.after_iterations Demo.always_done (2 ^ 31) (Z.to_nat INT32_MAX) = Some s /\
    t s < 2 ^ 31 /\
    Demo.always_done (world s) = Ok ([# 1], [# true]) /\
    Demo.body Demo.always_done None [] 3 s = (Ok false, s') /\
    episode_idx s !!! 0%fin = INT32_MAX /\
    episode_idx s' !!! 0%fin = INT32_MIN /\
    episode_idx s' !!! 0%fin <> episode_idx s !!! 0%fin + 1.
Proof.
  destruct (always_done_iterations (2 ^ 31) (Z.to_nat INT32_MAX) (Demo.start 1 0))
    as (s & Hit & Ht & Hidx).
  { change (t (Demo.start 1 0)) with 0. rewrite Z2Nat.id by (unfold INT32_MAX; lia).
    unfold INT32_MAX. lia. }
  { change (episode_idx (Demo.start 1 0) !!! 0%fin) with 0.
    unfold int32_range, INT32_MIN, INT32_MAX. lia. }
  change (episode_idx (Demo.start 1 0) !!! 0%fin) with 0 in Hidx.
  change (t (Demo.start 1 0)) with 0 in Ht.
  rewrite Z2Nat.id in Hidx, Ht by (unfold INT32_MAX; lia).
  change (wrap_int32 (0 + INT32_MAX)) with INT32_MAX in Hidx.
  destruct (always_done_body s) as (s' & Hbody & _ & Hidx').
  rewrite Hidx in Hidx'. rewrite wrap_int32_max in Hidx'.
  exists s, s'. split; [exact Hit|].
  split; [rewrite Ht; unfold INT32_MAX; lia|].
  split; [reflexivity|]. split; [exact Hbody|]. split; [exact Hidx|].
  split; [exact Hidx'|]. rewrite Hidx, Hidx'. unfold INT32_MIN, INT32_MAX. lia.
Qed.

(** ** The bookkeeping at the end of an episode *)

Section episode_end.
Context {W Obss Acts R Score Stats : Type} {N : nat}.
Variable radd : R -> R -> R.
Variable rzero : R.
Variable np_mean : list R -> R.
Variable score_ge : Score -> Score -> bool.
Variable agent : @Agent W Obss Acts R Stats N.
Variable env : @Env W Obss Acts R N.
Variable outdir : string.
Variable log_interval : option Z.
Variable max_episode_len : option Z.
Variable evaluator : option (@Evaluator W Score).
Variable successful_score : option Score.
Variable step_hooks : list (@Hook W).
Variable return_window_size : nat.
Variable logger : @Logger W R Stats.

Local Abbreviation loop_body :=
  (loop_body radd rzero np_mean score_ge agent env outdir log_interval
             max_episode_len evaluator successful_score step_hooks
             return_window_size logger).

(** C6.  In an iteration that returns, let [rs] and [dones] be what
    [env.step] returned.  The episode of slot [i] ends when [dones] is
    true at [i] or when the step count of the slot, incremented for this
    step, is [max_episode_len].  The returns pushed on the window of
    recent returns are those of the slots that end, each one the
    return accumulated so far plus the reward of this step, in the
    order of the slots, and the window then holds the last
    [return_window_size] entries of what it held followed by them.  For
    a slot that ends, the episode index is one more than before as long
    as it was below [INT32_MAX], and the return and the step count are
    zero at the start of the next iteration.
    For a slot that does not end, the episode index, the return with
    the reward of this step added and the step count incremented for
    this step are left as they are.

    At [INT32_MAX] the increment of line 87 fails: with one slot whose
    episode ends at every step and a budget of [2 ^ 31] steps, the
    iteration that follows [2 ^ 31 - 1] whole ones is entered with the
    episode index at [INT32_MAX], [env.step] says that the episode is
    done, and the index is then [INT32_MIN], not [INT32_MAX + 1]. *)
Theorem episode_end_bookkeeping :
  (forall (s s' : @state W Obss R N) b acts w1 o rs dones w2,
     batch_act_and_train agent (obss s) (world s) = (Ok acts, w1) ->
     step env acts w1 = (Ok (o, rs, dones), w2) ->
     loop_body s = (Ok b, s') ->
     let ended (i : fin N) :=
       dones !!! i || match max_episode_len with
                      | Some m => wrap_int32 (episode_len s !!! i + 1) =? m
                      | None => false
                      end in
     let pushed :=
       omap (fun i : fin N =>
               if ended i then Some (radd (episode_r s !!! i) (rs !!! i)) else None)
            (fin_enum N) in
     recent_returns s'
     = deque_extend return_window_size (recent_returns s) pushed /\
     ((length (recent_returns s) <= return_window_size)%nat ->
      recent_returns s'
      = drop (length (recent_returns s ++ pushed) - return_window_size)
             (recent_returns s ++ pushed)) /\
     forall i : fin N,
       (ended i = true ->
        (int32_range (episode_idx s !!! i) -> episode_idx s !!! i < INT32_MAX ->
         episode_idx s' !!! i = episode_idx s !!! i + 1) /\
        In (radd (episode_r s !!! i) (rs !!! i)) pushed /\
        episode_r s' !!! i = rzero /\
        episode_len s' !!! i = 0) /\
       (ended i = false ->
        (int32_range (episode_idx s !!! i) ->
         episode_idx s' !!! i = episode_idx s !!! i) /\
        episode_r s' !!! i = radd (episode_r s !!! i) (rs !!! i) /\
        episode_len s' !!! i = wrap_int32 (episode_len s !!! i + 1)))
  /\
  (exists s s',
     Demo.after_iterations Demo.always_done (2 ^ 31) (Z.to_nat INT32_MAX) = Some s /\
     t s < 2 ^ 31 /\
     Demo.always_done (world s) = Ok ([# 1], [# true]) /\
     Demo.body Demo.always_done None [] 3 s = (Ok false, s') /\
     episode_idx s !!! 0%fin = INT32_MAX /\
     episode_idx s' !!! 0%fin = INT32_MIN /\
     episode_idx s' !!! 0%fin <> episode_idx s !!! 0%fin + 1).
Proof.
  split; [|exact always_done_overflow].
  intros s s' b acts w1 o rs dones w2 Hact Hstep Hb.
  pose proof (loop_body_bookkeeping _ _ _ _ _ _ _ _ _ _ _ _ _ _ _ _ _ _ _ _ _ _ _
                Hact Hstep Hb) as Hbook.
  cbv beta zeta in Hbook |- *. destruct Hbook as (Hwin & Hslots).
  set (pushed := omap _ (fin_enum N)) in *.
  split; [exact Hwin|]. split.
  { intros Hlen. rewrite Hwin. now apply deque_extend_drop. }
  intros i. destruct (Hslots i) as (Hidx & Hr & Hlen).
  split; intros Hend; rewrite Hend in Hidx, Hr, Hlen; cbn [Z.b2z] in Hidx.
  - split; [|split; [|split; [exact Hr|exact Hlen]]].
    + intros Hrange Hlt. rewrite Hidx. now apply wrap_int32_succ.
    + apply list_elem_of_In, list_elem_of_omap. exists i. split.
      * change (i ∈ enum (fin N)). apply elem_of_enum.
      * now rewrite Hend.
  - split; [|split; [exact Hr|exact Hlen]].
    intros Hrange. rewrite Hidx, Z.add_0_r. now apply wrap_int32_id.
Qed.
End episode_end.

(** Two slots and a limit of two steps, in the second iteration of a
    run in which the second slot was done at the first step: the first
    slot ends its episode by the limit alone; its episode index is then
    1, its return 1 + 1 is pushed on the window after the 10 of the
    first iteration, and its return and step count are 0.  The second
    slot does not end: it keeps its episode index 1 and has return 10
    and step count 1. *)
Lemma episode_end_bookkeeping_witness :
  exists s',
    Demo.body Demo.second_slot_done_once (Some 2) [] 3 Demo.after_second_slot_done
    = (Ok false, s') /\
    recent_returns s' = [10; 2] /\
    (episode_idx s' !!! 0%fin = 1 /\ episode_r s' !!! 0%fin = 0 /\
     episode_len s' !!! 0%fin = 0) /\
    (episode_idx s' !!! 1%fin = 1 /\ episode_r s' !!! 1%fin = 10 /\
     episode_len s' !!! 1%fin = 1).
Proof.
  eexists. split; [vm_compute; reflexivity|].
  destruct (episode_end_bookkeeping Z.add 0 (fun _ => 0) Z.geb
              (Demo.quiet_agent 2) (Demo.scripted_env 2 Demo.second_slot_done_once)
              "out" None (Some 2) None None [] 3%nat Demo.quiet_logger)
    as (Hbook & _).
  edestruct (Hbook Demo.after_second_slot_done) as (_ & Hdrop & Hslots).
  - reflexivity.
  - reflexivity.
  - vm_compute. reflexivity.
  - split; [apply Hdrop; vm_compute; lia|].
    destruct (Hslots 0%fin) as (Hend & _).
    destruct (Hslots 1%fin) as (_ & Hkeep).
    destruct (Hend eq_refl) as (Hidx0 & _ & Hr0 & Hlen0).
    destruct (Hkeep eq_refl) as (Hidx1 & Hr1 & Hlen1).
    split; [split; [|split; [exact Hr0|exact Hlen0]]|
            split; [|split; [exact Hr1|exact Hlen1]]].
    + apply Hidx0; [vm_compute; split; discriminate|reflexivity].
    + apply Hidx1. vm_compute. split; discriminate.
Defined.

(** ** The window when several episodes end together

    With a window of one return and two slots that end their episodes in
    the same iteration, both returns are pushed, in slot order, and only
    that of the last slot stays. *)
Lemma window_keeps_last_return :
  exists s',
    Demo.body Demo.both_done None [] 1 (Demo.start 2 0) = (Ok false, s') /\
    recent_returns s' = [10].
Proof. eexists. split; [vm_compute; reflexivity|reflexivity]. Qed.

(** ** An exception outside the [except] clause

    [SystemExit] raised by [env.step] is not caught: the agent is not
    saved and nothing is closed. *)
Lemma system_exit_is_not_saved :
  Demo.run Demo.exits_at_once 3 None 0 None None [] 3 Demo.save_ok 3
  = Some (Raise Demo.SystemExit, 1%nat, [EvResetAll; EvAct; EvStep]).
Proof. vm_compute. reflexivity. Qed.

(** ** The further theorems on runs of the example world *)

(** Two slots and one hook: the iteration from the start advances the
    step counter to 2. *)
Lemma iteration_trace_witness :
  exists s',
    Demo.body Demo.second_slot_done None [Demo.quiet_hook] 3 (Demo.start 2 0)
    = (Ok false, s') /\
    t s' = 2 /\
    trace s'
    = [EvResetAll; EvAct; EvStep;
       EvObserve [# 1; 10] [# false; true] [# false; false];
       EvReset [# true; false]; EvHook 0 1; EvHook 0 2].
Proof.
  eexists. split; [vm_compute; reflexivity|].
  edestruct (iteration_trace Z.add 0 (fun _ => 0) Z.geb (Demo.quiet_agent 2)
               (Demo.scripted_env 2 Demo.second_slot_done) "out" None None None
               None [Demo.quiet_hook] 3%nat Demo.quiet_logger (Demo.start 2 0))
    as (Ht & rs & dones & Htr); [vm_compute; reflexivity|].
  split; [exact Ht|reflexivity].
Defined.

(** One slot, a progress line every two steps: the iteration from step 1
    to step 2 logs the progress once. *)
Lemma progress_log_cadence_witness :
  exists s' evs,
    Demo.logging_body Demo.never_done 2 Demo.after_one_step = (Ok false, s') /\
    trace s' = trace Demo.after_one_step ++ evs /\
    progress_logs evs = [(2, 0)].
Proof.
  edestruct (progress_log_cadence Z.add 0 (fun _ => 0) Z.geb (Demo.quiet_agent 1)
               (Demo.scripted_env 1 Demo.never_done) "out" (Some 2) None None
               None [] 3%nat Demo.quiet_logger 2 Demo.after_one_step)
    as (evs & Htr & Hlogged & _); [reflexivity|lia|vm_compute; reflexivity|].
  eexists _, evs. split; [vm_compute; reflexivity|]. split; [exact Htr|].
  apply Hlogged. exists 1. cbn. lia.
Defined.

(** Three iterations with an evaluator: it is asked at the steps 1, 2
    and 3. *)
Lemma evaluations_per_iteration_witness :
  exists s' evs,
    Demo.evaluated_iterations Demo.never_done 3 (Some (Demo.eager_evaluator 0)) 3
    = Some s' /\
    trace s' = trace (Demo.start 1 0) ++ evs /\
    map fst (evaluations evs) = [1; 2; 3].
Proof.
  edestruct (evaluations_per_iteration Z.add 0 (fun _ => 0) Z.geb
               (Demo.quiet_agent 1) (Demo.scripted_env 1 Demo.never_done) 3
               "out" None None (Some (Demo.eager_evaluator 0)) (Some 1) [] 3%nat
               Demo.quiet_logger 3%nat (Demo.start 1 0))
    as (evs & Htr & Hev & _); [vm_compute; reflexivity|].
  eexists _, evs. split; [vm_compute; reflexivity|]. split; [exact Htr|exact Hev].
Defined.

(** The evaluator shows the best score 1 and the threshold is 1: the loop
    is left by [break] after the evaluation of the first iteration. *)
Lemma success_exit_needs_evaluation_witness :
  exists s',
    Demo.loop_from_start Demo.never_done 3 (Some (Demo.eager_evaluator 1))
                         (Some 1) 3
    = Some (Ok SuccessThreshold, s') /\
    last (trace s') = Some (EvEvaluate 1 0).
Proof.
  eexists. split; [vm_compute; reflexivity|].
  edestruct (success_exit_needs_evaluation Z.add 0 (fun _ => 0) Z.geb
               (Demo.quiet_agent 1) (Demo.scripted_env 1 Demo.never_done) 3
               "out" None None (Some (Demo.eager_evaluator 1)) (Some 1)
               [Demo.quiet_hook] 3%nat Demo.quiet_logger 3%nat (Demo.start 1 0))
    as (ev & score & sb & _ & _ & _ & _ & Hlast); [vm_compute; reflexivity|].
  exact Hlast.
Defined.

(** The reset of a broken environment raises; and a full disk makes the
    [_finish] save raise after a run of one step. *)
Lemma unguarded_failures_witness :
  train_agent_batch Z.add 0 (fun _ => 0) Z.geb (Demo.quiet_agent 1)
    Demo.broken_env 3 "out" None None 0 None None [] 3 Demo.quiet_logger
    Demo.save_ok 3 0%nat
  = Some (Raise Demo.RuntimeError, 0%nat, [EvResetAll]) /\
  exists tr,
    Demo.run Demo.never_done 1 None 0 None None [] 3 Demo.save_fails 1
    = Some (Raise Demo.OSError, 1%nat, tr) /\
    saves tr = [(1, "_finish")] /\ env_closes tr = 0%nat.
Proof.
  split.
  - apply (unguarded_failures Z.add 0 (fun _ => 0) Z.geb (Demo.quiet_agent 1)
             Demo.broken_env 3 "out" None None 0 None None [] 3%nat
             Demo.quiet_logger Demo.save_ok).
    reflexivity.
  - destruct (unguarded_failures Z.add 0 (fun _ => 0) Z.geb (Demo.quiet_agent 1)
                (Demo.scripted_env 1 Demo.never_done) 1 "out" None None 0 None
                None [] 3%nat Demo.quiet_logger Demo.save_fails) as [_ Hsave].
    edestruct (Hsave 1%nat 0%nat tt 0%nat) as (tr & Hrun & Hsaves & Hcloses & _).
    + reflexivity.
    + vm_compute. reflexivity.
    + reflexivity.
    + exists tr. split; [exact Hrun|]. split; [exact Hsaves|exact Hcloses].
Defined.

(** A run asked to reach step 3 from step 5, without any fuel. *)
Lemma empty_budget_run_witness :
  Demo.run Demo.never_done 3 None 5 None None [Demo.quiet_hook] 3 Demo.save_ok 0
  = Some (Ok BudgetExhausted, 0%nat, [EvResetAll; EvSave 5 "_finish"]).
Proof.
  edestruct (empty_budget_run Z.add 0 (fun _ => 0) Z.geb (Demo.quiet_agent 1)
               (Demo.scripted_env 1 Demo.never_done) 3 "out" None None 5 None
               None [Demo.quiet_hook] 3%nat Demo.quiet_logger Demo.save_ok
               0%nat 0%nat tt 0%nat)
    as (r & w' & Hrun & Hres); [lia|reflexivity|].
  destruct (Hres 0%nat eq_refl) as [-> ->]. exact Hrun.
Defined.

(** Without slots, two iterations leave the step counter at 0, and the
    loop is left only by the threshold. *)
Lemma zero_slots_never_exhaust_witness :
  (exists s',
     Demo.evaluated_iterations Demo.no_slots 3 None 2 = Some s' /\ t s' = 0) /\
  exists s',
    Demo.loop_from_start Demo.no_slots 3 (Some (Demo.eager_evaluator 1)) (Some 1) 1
    = Some (Ok SuccessThreshold, s') /\
    Ok SuccessThreshold <> Ok BudgetExhausted.
Proof.
  split.
  - destruct (zero_slots_never_exhaust Z.add 0 (fun _ => 0) Z.geb
                (Demo.quiet_agent 0) (Demo.scripted_env 0 Demo.no_slots) 3 "out"
                None None None (Some 1) [] 3%nat Demo.quiet_logger
                (Demo.start 0 0) eq_refl) as [Hkeep _].
    eexists. split; [vm_compute; reflexivity|].
    apply (Hkeep 2%nat). vm_compute. reflexivity.
  - destruct (zero_slots_never_exhaust Z.add 0 (fun _ => 0) Z.geb
                (Demo.quiet_agent 0) (Demo.scripted_env 0 Demo.no_slots) 3 "out"
                None None (Some (Demo.eager_evaluator 1)) (Some 1)
                [Demo.quiet_hook] 3%nat Demo.quiet_logger
                (Demo.start 0 0) eq_refl) as [_ Hexit].
    eexists. split; [vm_compute; reflexivity|].
    eapply (Hexit 1%nat); [cbn; lia|vm_compute; reflexivity].
Defined.

(** With [log_interval = 0] the first iteration raises
    [ZeroDivisionError] at step 1. *)
Lemma zero_log_interval_raises_witness :
  exists sb,
    Demo.logging_body Demo.never_done 0 (Demo.start 1 0)
    = (Raise ZeroDivisionError, sb) /\
    t sb = 1.
Proof.
  destruct (zero_log_interval_raises Z.add 0 (fun _ => 0) Z.geb
              (Demo.quiet_agent 1) (Demo.scripted_env 1 Demo.never_done) 3 "out"
              (Some 0) None None None [] 3%nat Demo.quiet_logger
              (Demo.start 1 0) eq_refl)
    as (_ & Hbody & _); [cbn; lia|].
  edestruct Hbody as [Hraise Ht]; [vm_compute; reflexivity|vm_compute; reflexivity|].
  eexists. split; [exact Hraise|exact Ht].
Defined.

(** After three episodes the episode index is 3 and the step count 0. *)
Lemma no_wrap_around_early_witness :
  exists s,
    Demo.after_iterations Demo.always_done 5 3 = Some s /\
    0 <= episode_idx s !!! 0%fin <= 3 /\
    0 <= episode_len s !!! 0%fin <= 3.
Proof.
  eexists. split; [vm_compute; reflexivity|].
  edestruct (no_wrap_around_early Z.add 0 (fun _ => 0) Z.geb
               (Demo.quiet_agent 1) (Demo.scripted_env 1 Demo.always_done) 5
               "out" None None 0 None None [] 3%nat Demo.quiet_logger
               0%nat tt 3%nat) as (Hidx & Hlen & _).
  - vm_compute. reflexivity.
  - unfold INT32_MAX. lia.
  - split; [exact Hidx|exact Hlen].
Defined.

(** Two slots, a limit of two steps and a window of one return, in the
    second iteration of a run whose first iteration pushed the return
    10 of the second slot: no slot is done, the first slot reaches the
    limit with return 1 + 1, and the window then holds that return
    alone. *)
Lemma window_holds_latest_witness :
  exists s',
    Demo.body Demo.second_slot_done_once (Some 2) [] 1 Demo.after_second_slot_done
    = (Ok false, s') /\
    recent_returns Demo.after_second_slot_done = [10] /\
    recent_returns s' = drop 1 [10; 2].
Proof.
  eexists. split; [vm_compute; reflexivity|]. split; [reflexivity|].
  edestruct (window_holds_latest Z.add 0 (fun _ => 0) Z.geb
               (Demo.quiet_agent 2) (Demo.scripted_env 2 Demo.second_slot_done_once)
               "out" None (Some 2) None None [] 1%nat Demo.quiet_logger
               Demo.after_second_slot_done)
    as (Hwin & _).
  - reflexivity.
  - reflexivity.
  - vm_compute. reflexivity.
  - cbn. lia.
  - exact Hwin.
Defined.

(** The second call of [env.step] raises: one whole iteration was made
    and the step counter is 1, the start of the second iteration. *)
Lemma exception_step_within_iteration_witness :
  exists s1,
    Demo.loop_from_start Demo.fails_at_second_step 3 None None 3
    = Some (Raise Demo.RuntimeError, s1) /\
    exists (k : nat) (sk : @state nat unit Z 1),
      t sk = 0 + Z.of_nat (k * 1) /\ t sk <= t s1 <= t sk + 1.
Proof.
  eexists. split; [vm_compute; reflexivity|].
  edestruct (exception_step_within_iteration Z.add 0 (fun _ => 0) Z.geb
               (Demo.quiet_agent 1)
               (Demo.scripted_env 1 Demo.fails_at_second_step) 3 "out" None
               None None None [Demo.quiet_hook] 3%nat Demo.quiet_logger 3%nat
               (Demo.start 1 0))
    as (k & sk & _ & _ & Ht & _ & Hbound & _); [vm_compute; reflexivity|].
  exists k, sk. split; [exact Ht|exact Hbound].
Defined.

(** Training with evaluation when the second call of [env.step] raises:
    both closing calls are made. *)
Lemma with_evaluation_exception_witness :
  exists w tr,
    Demo.run_with_evaluation Demo.fails_at_second_step 3 3
    = Some (Raise Demo.RuntimeError, w,
            [EvMakedirs "out" true;
             EvEvaluatorInit
               (evaluator_args (Demo.quiet_agent 1)
                  (Demo.scripted_env 1 Demo.fails_at_second_step) 1 1 "out" None 0
                  None None true Demo.quiet_logger)],
            tr) /\
    env_closes tr = 1%nat /\ evaluator_env_closes tr = 1%nat.
Proof.
  edestruct (with_evaluation_exception Z.add 0 (fun _ => 0) Z.geb
               Demo.makedirs_ok Demo.make_evaluator (Demo.quiet_agent 1)
               (Demo.scripted_env 1 Demo.fails_at_second_step) 3 1 1 "out" None
               0 None 3%nat None None (Some 1) [] true Demo.quiet_logger
               Demo.save_ok 3%nat 0%nat)
    as (Hrun & _).
  - reflexivity.
  - reflexivity.
  - reflexivity.
  - vm_compute. reflexivity.
  - reflexivity.
  - reflexivity.
  - reflexivity.
  - reflexivity.
  - eexists _, _. split; [exact Hrun|]. split; reflexivity.
Defined.

(** Training with evaluation for three steps: three evaluations, one
    [_finish] save, nothing closed. *)
Lemma with_evaluation_normal_return_witness :
  exists w setup tr,
    Demo.run_with_evaluation Demo.never_done 3 3
    = Some (Ok BudgetExhausted, w, setup, tr) /\
    length (evaluations tr) = env_steps tr /\
    env_closes tr = 0%nat /\ evaluator_env_closes tr = 0%nat.
Proof.
  eexists _, _, _. split; [vm_compute; reflexivity|].
  edestruct (with_evaluation_normal_return Z.add 0 (fun _ => 0) Z.geb
               Demo.makedirs_ok Demo.make_evaluator (Demo.quiet_agent 1)
               (Demo.scripted_env 1 Demo.never_done) 3 1 1 "out" None
               0 None 3%nat None None (Some 1) [] true Demo.quiet_logger
               Demo.save_ok 3%nat 0%nat)
    as (_ & _ & _ & _ & Hc & Hec & Hcount); [vm_compute; reflexivity|].
  split; [exact Hcount|]. split; [exact Hc|exact Hec].
Defined.
